(** * The Return Journey: calendar and event REST API

    A shallow embedding of the request handlers of the calendar/event
    back end (Express routes over Mongoose models) and of its two pure
    helpers, with the properties of its specification stated over them.

    Conventions of the embedding.

    - A JavaScript string is the list of its UTF-16 code units
      ([jsstring]); the literal messages the handlers send are Rocq
      strings.
    - A MongoDB collection is the list of its documents in natural
      (insertion) order: [findOne] returns the first match and
      [find({})[0]] the first document.
    - An [ObjectId] is its 96-bit value.  Route parameters and token
      claims are taken to be well-formed ids in their canonical hex form:
      a parameter Mongoose cannot cast makes the query reject, which
      every route turns into its 500 answer.
    - A handler is a computation in the monad [DB]: it threads the store,
      records every model call it awaits in a query log, and may throw;
      the [try]/[catch] of each route is [try_catch].
    - A [Date] is its time value, milliseconds since the epoch, in [Z].
      The server's time zone is its offset from UTC before the first
      transition and the transitions that follow, so that zones with
      daylight saving are covered along with those of a fixed offset.
    - [jsonwebtoken], [bcrypt], the id generator of the driver and the
      date parser of the runtime are parameters of the development. *)

From Stdlib Require Import ZArith NArith List String Ascii Bool Lia.
Import ListNotations.

Set Implicit Arguments.
Local Open Scope N_scope.

(* ================================================================= *)
(** ** JavaScript strings *)

Definition jschar := N.
Definition jsstring := list jschar.

(** A Rocq string literal as a JavaScript string (code units below 256). *)
Definition js (s : string) : jsstring :=
  map N_of_ascii (list_ascii_of_string s).

Definition jschar_eqb (a b : jschar) : bool := N.eqb a b.

Fixpoint jsstring_eqb (a b : jsstring) : bool :=
  match a, b with
  | [], [] => true
  | x :: a', y :: b' => jschar_eqb x y && jsstring_eqb a' b'
  | _, _ => false
  end.

Definition in_range (lo hi c : jschar) : bool := (lo <=? c) && (c <=? hi).

(** [\s] of an ECMAScript regular expression, which is also the set
    [String.prototype.trim] strips: WhiteSpace and LineTerminator. *)
Definition is_space (c : jschar) : bool :=
  in_range 9 13 c || (c =? 32) || (c =? 160) || (c =? 5760)
  || in_range 8192 8202 c || (c =? 8232) || (c =? 8233) || (c =? 8239)
  || (c =? 8287) || (c =? 12288) || (c =? 65279).

Definition is_upper (c : jschar) : bool := in_range 65 90 c.
Definition is_lower (c : jschar) : bool := in_range 97 122 c.
Definition is_digit (c : jschar) : bool := in_range 48 57 c.

(** Membership in a bracket class written as a literal list of characters. *)
Definition one_of (cs : jsstring) (c : jschar) : bool :=
  existsb (jschar_eqb c) cs.

Fixpoint drop_while (p : jschar -> bool) (s : jsstring) : jsstring :=
  match s with
  | [] => []
  | c :: s' => if p c then drop_while p s' else s
  end.

(** [String.prototype.trim]. *)
Definition trim (s : jsstring) : jsstring :=
  rev (drop_while is_space (rev (drop_while is_space s))).

(* ================================================================= *)
(** ** Regular expressions

    The patterns of the validator use character classes, concatenation,
    [+] and the anchors [^] and [$]; [RegExp.prototype.test] only asks
    whether a match exists, so a pattern is embedded by its language and
    decided with derivatives. *)

Module Regex.

Inductive regex : Type :=
| Void
| Eps
| Cls (p : jschar -> bool)
| Cat (r s : regex)
| Alt (r s : regex)
| Star (r : regex).

Definition Plus (r : regex) : regex := Cat r (Star r).
Definition Any : regex := Cls (fun _ => true).

Fixpoint nullable (r : regex) : bool :=
  match r with
  | Void => false
  | Eps => true
  | Cls _ => false
  | Cat r s => nullable r && nullable s
  | Alt r s => nullable r || nullable s
  | Star _ => true
  end.

Fixpoint deriv (c : jschar) (r : regex) : regex :=
  match r with
  | Void => Void
  | Eps => Void
  | Cls p => if p c then Eps else Void
  | Cat r s =>
      if nullable r then Alt (Cat (deriv c r) s) (deriv c s)
      else Cat (deriv c r) s
  | Alt r s => Alt (deriv c r) (deriv c s)
  | Star r => Cat (deriv c r) (Star r)
  end.

Fixpoint matches (r : regex) (s : jsstring) : bool :=
  match s with
  | [] => nullable r
  | c :: s' => matches (deriv c r) s'
  end.

(** A RegExp object without flags: [/^r$/] must match the whole input,
    [/r/] some substring of it. *)
Inductive pattern : Type :=
| Anchored (r : regex)
| Search (r : regex).

Definition test (p : pattern) (s : jsstring) : bool :=
  match p with
  | Anchored r => matches r s
  | Search r => matches (Cat (Star Any) (Cat r (Star Any))) s
  end.

(** The language of a pattern, as the ECMAScript semantics gives it. *)
Inductive lang : regex -> jsstring -> Prop :=
| L_eps : lang Eps []
| L_cls p c : p c = true -> lang (Cls p) [c]
| L_cat r s u v : lang r u -> lang s v -> lang (Cat r s) (u ++ v)
| L_alt_l r s u : lang r u -> lang (Alt r s) u
| L_alt_r r s u : lang s u -> lang (Alt r s) u
| L_star_nil r : lang (Star r) []
| L_star_app r u v : lang r u -> lang (Star r) v -> lang (Star r) (u ++ v).

End Regex.

Import Regex.

(* ================================================================= *)
(** ** utils/passwordValidation.js *)

Definition emailRegex : pattern :=
  let atom := Cls (fun c => negb (is_space c || one_of (js "@") c)) in
  Anchored (Cat (Plus atom)
           (Cat (Cls (one_of (js "@")))
           (Cat (Plus atom)
           (Cat (Cls (one_of (js ".")))
                (Plus atom))))).

Definition minLength : nat := 8.
Definition uppercaseRegex : pattern := Search (Cls is_upper).
Definition lowercaseRegex : pattern := Search (Cls is_lower).
Definition digitRegex : pattern := Search (Cls is_digit).

(** The class of the last pattern; code unit 34 is its double quote. *)
Definition is_special (c : jschar) : bool :=
  one_of (js "!@#$%^&*(),.?" ++ [34] ++ js ":{}|<>") c.

Definition specialCharRegex : pattern := Search (Cls is_special).

(** [null] is [None]. *)
Definition validateUserCredentials (email password : jsstring)
  : option string :=
  if negb (test emailRegex email) then
    Some "Invalid email format"%string
  else if (List.length password <? minLength)%nat then
    Some "Password must be at least 8 characters long"%string
  else if negb (test uppercaseRegex password) then
    Some "Password must contain at least one uppercase letter"%string
  else if negb (test lowercaseRegex password) then
    Some "Password must contain at least one lowercase letter"%string
  else if negb (test digitRegex password) then
    Some "Password must contain at least one digit"%string
  else if negb (test specialCharRegex password) then
    Some "Password must contain at least one special character"%string
  else None.

(* ================================================================= *)
(** ** Documents and the store *)

Definition ObjectId := N.
Definition Date := Z.

(** Modelled from the spec: models/user.model.js is not among the
    sources; an Identity is {id, email, password (hashed), name, role,
    current refresh token (nullable)}, and the routes read and write
    exactly these paths. *)
Record User : Type := mkUser {
  u_id : ObjectId;
  u_email : jsstring;
  u_password : jsstring;
  u_name : option jsstring;
  u_role : option jsstring;
  u_refreshToken : option jsstring
}.

(** models/calendar.model.js *)
Record Calendar : Type := mkCalendar {
  c_id : ObjectId;
  c_name : jsstring;
  c_owner : ObjectId;
  c_events : list ObjectId
}.

(** models/event.model.js *)
Record Event : Type := mkEvent {
  e_id : ObjectId;
  e_title : jsstring;
  e_description : option jsstring;
  e_startTime : Date;
  e_endTime : Date;
  e_location : option jsstring;
  e_organizer : ObjectId;
  e_attendees : list ObjectId
}.

(** models/blacklist.model.js *)
Record Blacklisted : Type := mkBlacklisted {
  b_token : jsstring;
  b_expiresAt : Date
}.

Record Store : Type := mkStore {
  users : list User;
  calendars : list Calendar;
  events : list Event;
  blacklist : list Blacklisted
}.

Definition set_users (f : list User -> list User) (st : Store) : Store :=
  mkStore (f (users st)) (calendars st) (events st) (blacklist st).
Definition set_calendars (f : list Calendar -> list Calendar) (st : Store)
  : Store :=
  mkStore (users st) (f (calendars st)) (events st) (blacklist st).
Definition set_events (f : list Event -> list Event) (st : Store) : Store :=
  mkStore (users st) (calendars st) (f (events st)) (blacklist st).
Definition set_blacklist (f : list Blacklisted -> list Blacklisted)
  (st : Store) : Store :=
  mkStore (users st) (calendars st) (events st) (f (blacklist st)).

(** A document as the JSON object a response carries. *)
Inductive JsVal : Type :=
| VStr (s : jsstring)
| VId (i : ObjectId)
| VNull.

Definition Doc := list (string * JsVal).

Definition field (k : string) (d : Doc) : option JsVal :=
  option_map snd (find (fun kv => String.eqb (fst kv) k) d).

Definition opt_field (k : string) (v : option jsstring) : Doc :=
  match v with
  | Some s => [(k, VStr s)]
  | None => []
  end.

Definition userDoc (u : User) : Doc :=
  [("_id"%string, VId (u_id u)); ("email"%string, VStr (u_email u));
   ("password"%string, VStr (u_password u))]
  ++ opt_field "name" (u_name u)
  ++ opt_field "role" (u_role u)
  ++ [("refreshToken"%string,
       match u_refreshToken u with Some t => VStr t | None => VNull end)].

(** [.select("-a -b")] and the field argument of [populate]: the listed
    paths are left out. *)
Definition select_exclude (paths : list string) (d : Doc) : Doc :=
  filter (fun kv => negb (existsb (String.eqb (fst kv)) paths)) d.

Definition sensitive : list string := ["password"; "refreshToken"]%string.

Definition populate_user (us : list User) (i : ObjectId) : option Doc :=
  option_map (fun u => select_exclude sensitive (userDoc u))
             (find (fun u => u_id u =? i) us).

(** Ids of an array path that resolve to no document are dropped. *)
Fixpoint populate_users (us : list User) (ids : list ObjectId) : list Doc :=
  match ids with
  | [] => []
  | i :: ids' =>
      match populate_user us i with
      | Some d => d :: populate_users us ids'
      | None => populate_users us ids'
      end
  end.

Record PopulatedEvent : Type := mkPopulated {
  pe_event : Event;
  pe_organizer : option Doc;
  pe_attendees : list Doc
}.

Definition populate_event (us : list User) (e : Event) : PopulatedEvent :=
  mkPopulated e (populate_user us (e_organizer e))
              (populate_users us (e_attendees e)).

(* ================================================================= *)
(** ** Handlers as computations over the store *)

Inductive Exn : Type :=
| TypeError
| ReferenceError
| ValidationError.

Inductive Result (A : Type) : Type :=
| Ok (a : A)
| Throw (e : Exn).
Arguments Ok {A} a.
Arguments Throw {A} e.

(** One awaited model call: the model and the method. *)
Record Query : Type := mkQuery { q_model : string; q_method : string }.

Definition DB (A : Type) : Type := Store -> Result A * Store * list Query.

Definition ret {A} (a : A) : DB A := fun st => (Ok a, st, []).

Definition throw {A} (e : Exn) : DB A := fun st => (Throw e, st, []).

Definition bind {A B} (m : DB A) (f : A -> DB B) : DB B :=
  fun st =>
    match m st with
    | (Ok a, st1, l1) =>
        match f a st1 with
        | (r, st2, l2) => (r, st2, l1 ++ l2)
        end
    | (Throw e, st1, l1) => (Throw e, st1, l1)
    end.

Notation "x <- c1 ;; c2" := (bind c1 (fun x => c2))
  (at level 61, c1 at next level, right associativity).

Definition try_catch {A} (body : DB A) (handler : Exn -> DB A) : DB A :=
  fun st =>
    match body st with
    | (Ok a, st1, l1) => (Ok a, st1, l1)
    | (Throw e, st1, l1) =>
        match handler e st1 with
        | (r, st2, l2) => (r, st2, l1 ++ l2)
        end
    end.

(** A model call that reads. *)
Definition read {A} (model method : string) (f : Store -> A) : DB A :=
  fun st => (Ok (f st), st, [mkQuery model method]).

(** A model call that writes. *)
Definition write (model method : string) (f : Store -> Store) : DB unit :=
  fun st => (Ok tt, f st, [mkQuery model method]).

(** The body of a response. *)
Inductive Body : Type :=
| Message (m : string)
| MessageError (m : string) (e : Exn)
| MessageTokens (m : string) (accessToken refreshToken : jsstring)
| AccessTokenOnly (accessToken : jsstring)
| MessageEvent (m : string) (e : Event)
| EventDetail (e : PopulatedEvent)
| EventList (es : list PopulatedEvent)
| CalendarList (cs : list Calendar).

Record Response : Type := mkResponse { status : nat; body : Body }.

(** [res.status(code).send(body)] *)
Definition send (code : nat) (b : Body) : DB Response :=
  ret (mkResponse code b).

(** What a request leaves behind: the response, the store and the log. *)
Definition response_of {A} (r : Result A * Store * list Query) : Result A :=
  fst (fst r).
Definition store_of {A} (r : Result A * Store * list Query) : Store :=
  snd (fst r).
Definition log_of {A} (r : Result A * Store * list Query) : list Query :=
  snd r.

(** [updateOne] and [save] of an existing document touch the first
    document the filter selects. *)
Fixpoint update_first {A} (p : A -> bool) (f : A -> A) (l : list A) : list A :=
  match l with
  | [] => []
  | x :: l' => if p x then f x :: l' else x :: update_first p f l'
  end.

(** [findOneAndDelete] removes the first document the filter selects. *)
Fixpoint remove_first {A} (p : A -> bool) (l : list A) : list A :=
  match l with
  | [] => []
  | x :: l' => if p x then l' else x :: remove_first p l'
  end.

(** Truthiness of a value that is a string, [null] or [undefined]. *)
Definition truthy (v : option jsstring) : bool :=
  match v with
  | Some (_ :: _) => true
  | _ => false
  end.

(* ================================================================= *)
(** ** The runtime the routes call into *)

(** A time zone: what local time is ahead of UTC, in milliseconds,
    before the first transition, and the transitions in ascending order,
    each the instant it takes effect and the offset from then on. *)
Record Zone : Type := mkZone {
  z_initial : Z;
  z_transitions : list (Z * Z)
}.

(** The offset in force at the instant [t]. *)
Fixpoint offset_from (o : Z) (ts : list (Z * Z)) (t : Z) : Z :=
  match ts with
  | [] => o
  | (at_, o') :: ts' => if (t <? at_)%Z then o else offset_from o' ts' t
  end.

(** The offset by which the local time value [tl] is read: that of the
    earliest instant that shows [tl] on the clock, and, for a local time
    a transition skips, the offset before that transition. *)
Fixpoint local_offset_from (o : Z) (ts : list (Z * Z)) (tl : Z) : Z :=
  match ts with
  | [] => o
  | (at_, o') :: ts' =>
      if (tl - o <? at_)%Z then o
      else if (tl - o' <? at_)%Z then o
      else local_offset_from o' ts' tl
  end.

(** [LocalTime(t)] and [UTC(t)] of the language specification. *)
Definition LocalTime (z : Zone) (t : Z) : Z :=
  (t + offset_from (z_initial z) (z_transitions z) t)%Z.

Definition UTC (z : Zone) (tl : Z) : Z :=
  (tl - local_offset_from (z_initial z) (z_transitions z) tl)%Z.

(** The payload both token helpers sign. *)
Record Claims : Type := mkClaims {
  cl_email : jsstring;
  cl_id : ObjectId;
  cl_name : option jsstring;
  cl_role : option jsstring
}.

(** [jwt_verify token secret now] is [None] when the callback of
    [jwt.verify] receives an error, and the decoded payload otherwise;
    [bcrypt_hash] is [None] when its callback receives an error;
    [Date_parse] is [None] when [new Date(s)] is an invalid date;
    [timeZone] is the time zone of the server;
    [defaultRole] is the role a new user document starts with. *)
Record Runtime : Type := mkRuntime {
  JWT_SECRET : jsstring;
  JWT_REFRESH_SECRET : jsstring;
  jwt_sign : Claims -> jsstring -> string -> Date -> jsstring;
  jwt_verify : jsstring -> jsstring -> Date -> option Claims;
  bcrypt_hash : jsstring -> nat -> option jsstring;
  Date_parse : jsstring -> option Date;
  timeZone : Zone;
  defaultRole : option jsstring
}.

(** The zone in which local time is [minutes] ahead of UTC throughout. *)
Definition fixed_zone (minutes : Z) : Zone := mkZone (minutes * 60000)%Z [].

(** The outcome of a middleware: it answered, or it called [next()] after
    setting [req.user]. *)
Inductive Gate : Type :=
| Responded (r : Response)
| Next (decoded : Claims).

Definition protected (gate : DB Gate) (handler : Claims -> DB Response)
  : DB Response :=
  g <- gate ;;
  match g with
  | Responded r => ret r
  | Next decoded => handler decoded
  end.

(** The body of [POST /:calendarId/events] after JSON parsing: a path is
    [None] when it is absent (or, for a date, cannot be cast). *)
Record EventInput : Type := mkEventInput {
  in_title : option jsstring;
  in_description : option jsstring;
  in_startTime : option Date;
  in_endTime : option Date;
  in_location : option jsstring;
  in_attendees : list ObjectId
}.

(** The setters of the event schema: [trim: true] on the string paths. *)
Definition cast_event (b : EventInput) : EventInput :=
  mkEventInput (option_map trim (in_title b))
               (option_map trim (in_description b))
               (in_startTime b) (in_endTime b)
               (option_map trim (in_location b))
               (in_attendees b).

(** The validators of the event schema: [required: true] on title (an
    empty string does not satisfy it), startTime and endTime. *)
Definition validate_event (i organizer : ObjectId) (d : EventInput)
  : option Event :=
  match in_title d, in_startTime d, in_endTime d with
  | Some (c :: t), Some s, Some e =>
      Some (mkEvent i (c :: t) (in_description d) s e (in_location d)
                    organizer (in_attendees d))
  | _, _, _ => None
  end.

Definition msPerDay : Z := 86400000.

Section Routes.

Variable rt : Runtime.

(** *** utils/accessToken.js, utils/refreshToken.js *)

Definition generateAccessToken (user : User) (now : Date) : jsstring :=
  jwt_sign rt (mkClaims (u_email user) (u_id user) (u_name user) (u_role user))
           (JWT_SECRET rt) "7d" now.

Definition generateRefreshToken (user : User) (now : Date) : jsstring :=
  jwt_sign rt (mkClaims (u_email user) (u_id user) (u_name user) (u_role user))
           (JWT_REFRESH_SECRET rt) "30d" now.

(** *** middlewares/auth.middleware.js *)

(** The last step of both variants of the gate: [jwt.verify] against the
    access secret. *)
Definition verify_access (token : jsstring) (now : Date) : DB Gate :=
  match jwt_verify rt token (JWT_SECRET rt) now with
  | None => ret (Responded (mkResponse 401 (Message "Invalid token")))
  | Some decoded => ret (Next decoded)
  end.

Definition revoked : Response :=
  mkResponse 403 (Message "Token has been revoked").

(** The variant that reads [refreshToken] off [user[0]], the first
    document [User.find({})] returns; on no document at all, reading a
    property of [undefined] throws. *)
Definition authMiddleware (authorization : option jsstring) (now : Date)
  : DB Gate :=
  try_catch
    (if negb (truthy authorization) then
       ret (Responded (mkResponse 403 (Message "No token provided")))
     else
       let token := match authorization with Some t => t | None => [] end in
       user <- read "User" "find" users ;;
       match user with
       | [] => throw TypeError
       | user0 :: _ =>
           if negb (truthy (u_refreshToken user0)) then
             ret (Responded revoked)
           else verify_access token now
       end)
    (fun _ => ret (Responded (mkResponse 500 (Message "Server error")))).

(** The variant that looks the presented token up in the blacklist. *)
Definition authMiddleware_blacklist (authorization : option jsstring)
  (now : Date) : DB Gate :=
  try_catch
    (if negb (truthy authorization) then
       ret (Responded (mkResponse 403 (Message "No token provided")))
     else
       let token := match authorization with Some t => t | None => [] end in
       blacklistedToken <-
         read "Blacklist" "findOne"
              (fun st => find (fun b => jsstring_eqb (b_token b) token)
                              (blacklist st)) ;;
       match blacklistedToken with
       | Some _ => ret (Responded revoked)
       | None => verify_access token now
       end)
    (fun _ => ret (Responded (mkResponse 500 (Message "Server error")))).

(** *** routes/auth.routes.js *)

Definition User_findOne_email (email : jsstring) : DB (option User) :=
  read "User" "findOne"
       (fun st => find (fun u => jsstring_eqb (u_email u) email) (users st)).

Definition User_findOne_refreshToken (t : jsstring) : DB (option User) :=
  read "User" "findOne"
       (fun st => find (fun u => match u_refreshToken u with
                                 | Some t' => jsstring_eqb t' t
                                 | None => false
                                 end) (users st)).

(** [newUser.save()]: the first call inserts, a later one updates the
    document of that id. *)
Definition User_insert (u : User) : DB unit :=
  write "User" "save" (set_users (fun us => us ++ [u])).

Definition User_update (u : User) : DB unit :=
  write "User" "save"
        (set_users (update_first (fun x => u_id x =? u_id u) (fun _ => u))).

(** What follows the lookup in every variant of the register route:
    hash, insert, sign both tokens, store the refresh token. *)
Definition register_new (newId : ObjectId) (email password : jsstring)
  (name : option jsstring) (now : Date) : DB Response :=
  match bcrypt_hash rt password 10 with
  | None => send 500 (Message "Error hashing password")
  | Some hash =>
      let newUser := mkUser newId email hash name (defaultRole rt) None in
      _ <- User_insert newUser ;;
      let accessToken := generateAccessToken newUser now in
      let refreshToken := generateRefreshToken newUser now in
      let newUser' := mkUser newId email hash name (defaultRole rt)
                             (Some refreshToken) in
      _ <- User_update newUser' ;;
      send 201 (MessageTokens "Registration successful"
                              accessToken refreshToken)
  end.

(** [POST /register], with the credential check in front. *)
Definition post_register (newId : ObjectId) (email password : jsstring)
  (name : option jsstring) (now : Date) : DB Response :=
  try_catch
    (match validateUserCredentials email password with
     | Some validationError => send 400 (Message validationError)
     | None =>
         user <- User_findOne_email email ;;
         match user with
         | Some _ => send 400 (Message "User already registered")
         | None => register_new newId email password name now
         end
     end)
    (fun err =>
       send 500 (MessageError "Server error during registration" err)).

(** [POST /register] of the two earlier variants of the file, which
    have no credential check. *)
Definition post_register_unvalidated (newId : ObjectId)
  (email password : jsstring) (name : option jsstring) (now : Date)
  : DB Response :=
  try_catch
    (user <- User_findOne_email email ;;
     match user with
     | Some _ => send 400 (Message "User already registered")
     | None => register_new newId email password name now
     end)
    (fun err =>
       send 500 (MessageError "Server error during registration" err)).

(** [POST /refresh-token]. *)
Definition post_refresh_token (refreshToken : option jsstring) (now : Date)
  : DB Response :=
  if negb (truthy refreshToken) then
    send 401 (Message "Refresh token required")
  else
    let token := match refreshToken with Some t => t | None => [] end in
    try_catch
      (user <- User_findOne_refreshToken token ;;
       match user with
       | None => send 403 (Message "Invalid refresh token")
       | Some user =>
           match jwt_verify rt token (JWT_REFRESH_SECRET rt) now with
           | None => send 403 (Message "Invalid refresh token")
           | Some _ => send 200 (AccessTokenOnly (generateAccessToken user now))
           end
       end)
      (fun err => send 500 (MessageError "Server error" err)).

(** [POST /refresh-token] of the two earlier variants: the file never
    requires [jsonwebtoken], so evaluating [jwt.verify] throws. *)
Definition post_refresh_token_unbound (refreshToken : option jsstring)
  (now : Date) : DB Response :=
  if negb (truthy refreshToken) then
    send 401 (Message "Refresh token required")
  else
    let token := match refreshToken with Some t => t | None => [] end in
    try_catch
      (user <- User_findOne_refreshToken token ;;
       match user with
       | None => send 403 (Message "Invalid refresh token")
       | Some _ => throw ReferenceError
       end)
      (fun err => send 500 (MessageError "Server error" err)).

Definition clear_refreshToken (u : User) : User :=
  mkUser (u_id u) (u_email u) (u_password u) (u_name u) (u_role u) None.

(** [POST /logout]: the token goes on the blacklist and comes off the
    identity that holds it. *)
Definition post_logout (refreshToken : option jsstring) (now : Date)
  : DB Response :=
  if negb (truthy refreshToken) then
    send 401 (Message "Refresh token required")
  else
    let token := match refreshToken with Some t => t | None => [] end in
    try_catch
      (_ <- write "Blacklist" "create"
              (set_blacklist (fun bs => bs ++ [mkBlacklisted token now])) ;;
       _ <- write "User" "updateOne"
              (set_users (update_first
                 (fun u => match u_refreshToken u with
                           | Some t' => jsstring_eqb t' token
                           | None => false
                           end)
                 clear_refreshToken)) ;;
       send 200 (Message "Logged out successfully"))
      (fun err => send 500 (MessageError "Server error" err)).

(** [POST /logout] of the two earlier variants: by email, and nothing
    goes on the blacklist.  The filter is the [email] of the body as it
    is; a body without one is outside this model. *)
Definition post_logout_by_email (email : jsstring) : DB Response :=
  try_catch
    (_ <- write "User" "findOneAndUpdate"
            (set_users (update_first
               (fun u => jsstring_eqb (u_email u) email)
               clear_refreshToken)) ;;
     send 200 (Message "Logout successful"))
    (fun err => send 500 (MessageError "Server error during logout" err)).

(** *** routes/calendar.routes.js *)

(** [GET /]: the calendars the requester owns. *)
Definition get_calendars (user : Claims) : DB Response :=
  let userId := cl_id user in
  try_catch
    (calendars <- read "Calendar" "find"
                    (fun st => filter (fun c => c_owner c =? userId)
                                      (calendars st)) ;;
     send 200 (CalendarList calendars))
    (fun err =>
       send 500 (MessageError "Server error during calendar retrieval" err)).

Definition Calendar_findOneAndDelete (calendarId owner : ObjectId)
  : DB (option Calendar) :=
  fun st =>
    let hit c := (c_id c =? calendarId) && (c_owner c =? owner) in
    (Ok (find hit (calendars st)),
     set_calendars (remove_first hit) st,
     [mkQuery "Calendar" "findOneAndDelete"]).

(** [DELETE /:calendarId] *)
Definition delete_calendar (user : Claims) (calendarId : ObjectId)
  : DB Response :=
  let userId := cl_id user in
  try_catch
    (calendar <- Calendar_findOneAndDelete calendarId userId ;;
     match calendar with
     | None => send 404 (Message "Calendar not found")
     | Some _ => send 200 (Message "Calendar deleted successfully")
     end)
    (fun err =>
       send 500 (MessageError "Server error during calendar deletion" err)).

(** *** routes/event.routes.js *)

Definition Calendar_findById (calendarId : ObjectId) : DB (option Calendar) :=
  read "Calendar" "findById"
       (fun st => find (fun c => c_id c =? calendarId) (calendars st)).

(** [calendar.save()] after its event list was changed in place.
    Saving validates the whole document first: [name] is required, so a
    calendar whose stored name is empty (the update route stores a name
    without running the validators) is rejected and nothing is
    written. *)
Definition Calendar_save (calendar : Calendar) : DB unit :=
  match c_name calendar with
  | [] => fun st => (Throw ValidationError, st, [mkQuery "Calendar" "save"])
  | _ :: _ =>
      write "Calendar" "save"
            (set_calendars (update_first (fun c => c_id c =? c_id calendar)
                                         (fun _ => calendar)))
  end.

(** [new Event({...})] followed by [newEvent.save()]: the setters run on
    construction, the validators on save, and a document that passes is
    appended to the collection under the id the driver drew. *)
Definition Event_save (newId organizer : ObjectId) (b : EventInput)
  : DB Event :=
  fun st =>
    match validate_event newId organizer (cast_event b) with
    | None => (Throw ValidationError, st, [mkQuery "Event" "save"])
    | Some newEvent =>
        (Ok newEvent, set_events (fun es => es ++ [newEvent]) st,
         [mkQuery "Event" "save"])
    end.

Definition denied : Body :=
  Message "Access denied, you don't own this calendar".

(** [calendar.events.push(id)] *)
Definition push_event (i : ObjectId) (c : Calendar) : Calendar :=
  mkCalendar (c_id c) (c_name c) (c_owner c) (c_events c ++ [i]).

(** [calendar.events.pull(id)]: every occurrence goes. *)
Definition pull_event (i : ObjectId) (c : Calendar) : Calendar :=
  mkCalendar (c_id c) (c_name c) (c_owner c)
             (filter (fun x => negb (x =? i)) (c_events c)).

(** [calendar.events.includes(id)] *)
Definition includes (l : list ObjectId) (i : ObjectId) : bool :=
  existsb (fun x => x =? i) l.

(** [POST /:calendarId/events] *)
Definition post_calendar_events (user : Claims) (calendarId : ObjectId)
  (b : EventInput) (newId : ObjectId) : DB Response :=
  let userId := cl_id user in
  try_catch
    (calendar <- Calendar_findById calendarId ;;
     match calendar with
     | None => send 403 denied
     | Some calendar =>
         if negb (c_owner calendar =? userId) then send 403 denied
         else
           newEvent <- Event_save newId userId b ;;
           _ <- Calendar_save (push_event (e_id newEvent) calendar) ;;
           send 201 (MessageEvent "Event created successfully" newEvent)
     end)
    (fun err =>
       send 500 (MessageError "Server error during event creation" err)).

(** [GET /events/:eventId] *)
Definition get_events_eventId (eventId : ObjectId) : DB Response :=
  try_catch
    (event <- read "Event" "findById.populate"
                (fun st => option_map (populate_event (users st))
                             (find (fun e => e_id e =? eventId)
                                   (events st))) ;;
     match event with
     | None => send 404 (Message "Event not found")
     | Some event => send 200 (EventDetail event)
     end)
    (fun err =>
       send 500 (MessageError "Server error during event retrieval" err)).

(** [DELETE /:calendarId/events/:eventId], the variant that looks the id
    up in the calendar's list and leaves the event collection alone. *)
Definition delete_calendar_event (user : Claims)
  (calendarId eventId : ObjectId) : DB Response :=
  let userId := cl_id user in
  try_catch
    (calendar <- Calendar_findById calendarId ;;
     match calendar with
     | None => send 403 denied
     | Some calendar =>
         if negb (c_owner calendar =? userId) then send 403 denied
         else if negb (includes (c_events calendar) eventId) then
           send 404 (Message "Event not found in this calendar")
         else
           _ <- Calendar_save (pull_event eventId calendar) ;;
           send 200 (Message "Event removed from calendar successfully")
     end)
    (fun err =>
       send 500 (MessageError "Server error during event removal" err)).

Definition Event_findByIdAndDelete (eventId : ObjectId) : DB (option Event) :=
  fun st =>
    let hit e := e_id e =? eventId in
    (Ok (find hit (events st)),
     set_events (remove_first hit) st,
     [mkQuery "Event" "findByIdAndDelete"]).

(** [DELETE /:calendarId/events/:eventId], the variant that deletes the
    event document first. *)
Definition delete_calendar_event_record (user : Claims)
  (calendarId eventId : ObjectId) : DB Response :=
  let userId := cl_id user in
  try_catch
    (calendar <- Calendar_findById calendarId ;;
     match calendar with
     | None => send 403 denied
     | Some calendar =>
         if negb (c_owner calendar =? userId) then send 403 denied
         else
           event <- Event_findByIdAndDelete eventId ;;
           match event with
           | None => send 404 (Message "Event not found")
           | Some event =>
               _ <- Calendar_save (pull_event (e_id event) calendar) ;;
               send 200 (Message "Event deleted successfully")
           end
     end)
    (fun err =>
       send 500 (MessageError "Server error during event deletion" err)).

(** [Date.prototype.setHours(h, m, s, ms)] on a date whose time value is
    [t]: the local day is that of [LocalTime(t)], and the new time value
    is [UTC] of that day with the given time.  The result is the new time
    value, which the date object also takes. *)
Definition setHours (t : Date) (h m s ms : Z) : Date :=
  UTC (timeZone rt)
      (LocalTime (timeZone rt) t / msPerDay * msPerDay
       + (((h * 60 + m) * 60 + s) * 1000 + ms))%Z.

(** The filter of the day query:
    [{organizer, startTime: {$gte: startOfDay, $lt: endOfDay}}]. *)
Definition on_day (userId : ObjectId) (startOfDay endOfDay : Date)
  (e : Event) : bool :=
  (e_organizer e =? userId)
  && (startOfDay <=? e_startTime e)%Z && (e_startTime e <? endOfDay)%Z.

(** [GET /events/day/:date].  Both [setHours] calls are on the one date
    object, so the second starts from what the first left. *)
Definition get_events_day (user : Claims) (date : jsstring) : DB Response :=
  let userId := cl_id user in
  try_catch
    (match Date_parse rt date with
     | None => send 400 (Message "Invalid date format")
     | Some providedDate =>
         let startOfDay := setHours providedDate 0 0 0 0 in
         let endOfDay := setHours startOfDay 23 59 59 999 in
         events <- read "Event" "find.populate"
                     (fun st => map (populate_event (users st))
                                  (filter (on_day userId startOfDay endOfDay)
                                          (events st))) ;;
         if (List.length events =? 0)%nat then
           send 404 (Message "No events found for the specified date")
         else send 200 (EventList events)
     end)
    (fun err =>
       send 500 (MessageError "Server error during event retrieval" err)).

End Routes.

(* ================================================================= *)
(** ** The remaining routes *)

(** What these routes send that the bodies above do not cover. *)
Inductive Payload : Type :=
| Plain (b : Body)
| UserFound (user : Doc)
| UsersPage (page limit : positive) (totalUsers totalPages : nat)
            (users : list Doc)
| MessageCalendar (m : string) (c : Calendar)
| MessageUpdated (m : string) (e : option Event)
| Events (es : list Event).

Record Reply : Type := mkReply { code : nat; payload : Payload }.

Definition reply (c : nat) (p : Payload) : DB Reply := ret (mkReply c p).

(** The setter and the validator of the calendar schema on [name]
    ([required: true], [trim: true]); a new calendar has no events. *)
Definition validate_calendar (i owner : ObjectId) (name : option jsstring)
  : option Calendar :=
  match option_map trim name with
  | Some (c :: t) => Some (mkCalendar i (c :: t) owner [])
  | _ => None
  end.

(** [populate("events")] on a calendar: the documents of the listed ids,
    in the order of the list; an id that resolves to nothing is dropped. *)
Fixpoint populate_events (es : list Event) (ids : list ObjectId) : list Event :=
  match ids with
  | [] => []
  | i :: ids' =>
      match find (fun e => e_id e =? i) es with
      | Some e => e :: populate_events es ids'
      | None => populate_events es ids'
      end
  end.

(** [Math.ceil(total / limit)] for a positive limit. *)
Definition ceil_div (total limit : nat) : nat :=
  ((total + limit - 1) / limit)%nat.

(** Whether a user document holds the refresh token [t]. *)
Definition holds (t : jsstring) (u : User) : bool :=
  match u_refreshToken u with
  | Some t' => jsstring_eqb t' t
  | None => false
  end.

Section OtherRoutes.

Variable rt : Runtime.

(** [bcrypt.compare(password, hash)]. *)
Variable bcrypt_compare : jsstring -> jsstring -> bool.

(** What casting an update does to a calendar name.  Whether the schema
    setters run on queries depends on the Mongoose release. *)
Variable cast_name : jsstring -> jsstring.

(** The body of a [PATCH] and what [findByIdAndUpdate] with
    [{ $set: body }] and [runValidators] makes of a stored event: the
    updated document, or the error it rejects with. *)
Variable Patch : Type.
Variable apply_set : Patch -> Event -> Result Event.

(** *** routes/auth.routes.js, continued *)

Definition set_refreshToken (t : jsstring) (u : User) : User :=
  mkUser (u_id u) (u_email u) (u_password u) (u_name u) (u_role u) (Some t).

(** [POST /login], the same in the three variants of the file. *)
Definition post_login (email password : jsstring) (now : Date)
  : DB Response :=
  try_catch
    (user <- User_findOne_email email ;;
     match user with
     | None => send 400 (Message "Invalid credentials, user not found")
     | Some user =>
         if negb (bcrypt_compare password (u_password user)) then
           send 400 (Message "Invalid credentials, incorrect password")
         else
           let accessToken := generateAccessToken rt user now in
           let refreshToken := generateRefreshToken rt user now in
           _ <- User_update (set_refreshToken refreshToken user) ;;
           send 200 (MessageTokens "Login successful" accessToken refreshToken)
     end)
    (fun err => send 500 (MessageError "Server error during login" err)).

(** [GET /users] for [options.page] and [options.limit] that [parseInt]
    made positive integers.  What the driver does with [NaN], zero or a
    negative limit or skip is not part of this model. *)
Definition get_users (page limit : positive) : DB Reply :=
  try_catch
    (users_ <- read "User" "find.select.limit.skip"
                (fun st =>
                   map (fun u => select_exclude sensitive (userDoc u))
                       (firstn (Pos.to_nat limit)
                          (skipn ((Pos.to_nat page - 1) * Pos.to_nat limit)
                                 (users st)))) ;;
     totalUsers <- read "User" "countDocuments"
                     (fun st => List.length (users st)) ;;
     reply 200 (UsersPage page limit totalUsers
                          (ceil_div totalUsers (Pos.to_nat limit)) users_))
    (fun err =>
       reply 500 (Plain (MessageError "Server error during user retrieval"
                                      err))).

(** [GET /users/search] *)
Definition get_users_search (email : option jsstring) : DB Reply :=
  if negb (truthy email) then
    reply 400 (Plain (Message "Please provide an email to search."))
  else
    let email := match email with Some e => e | None => [] end in
    try_catch
      (user <- read "User" "findOne.select"
                 (fun st =>
                    option_map (fun u => select_exclude sensitive (userDoc u))
                      (find (fun u => jsstring_eqb (u_email u) email)
                            (users st))) ;;
       match user with
       | None => reply 404 (Plain (Message "User not found."))
       | Some user => reply 200 (UserFound user)
       end)
      (fun err =>
         reply 500 (Plain (MessageError "Server error during user search"
                                        err))).

(** *** routes/calendar.routes.js, continued *)

(** [new Calendar({ name, owner })] followed by [save()], under the id
    the driver drew. *)
Definition Calendar_insert (newId owner : ObjectId) (name : option jsstring)
  : DB Calendar :=
  fun st =>
    match validate_calendar newId owner name with
    | None => (Throw ValidationError, st, [mkQuery "Calendar" "save"])
    | Some newCalendar =>
        (Ok newCalendar, set_calendars (fun cs => cs ++ [newCalendar]) st,
         [mkQuery "Calendar" "save"])
    end.

(** [POST /] *)
Definition post_calendar (user : Claims) (name : option jsstring)
  (newId : ObjectId) : DB Reply :=
  let userId := cl_id user in
  try_catch
    (newCalendar <- Calendar_insert newId userId name ;;
     reply 201 (MessageCalendar "Calendar created successfully" newCalendar))
    (fun err =>
       reply 500 (Plain (MessageError "Server error during calendar creation"
                                      err))).

Definition rename (name : jsstring) (c : Calendar) : Calendar :=
  mkCalendar (c_id c) (cast_name name) (c_owner c) (c_events c).

(** [findOneAndUpdate({ _id, owner }, { name }, { new: true })] *)
Definition Calendar_findOneAndUpdate (calendarId owner : ObjectId)
  (name : jsstring) : DB (option Calendar) :=
  fun st =>
    let hit c := (c_id c =? calendarId) && (c_owner c =? owner) in
    (Ok (option_map (rename name) (find hit (calendars st))),
     set_calendars (update_first hit (rename name)) st,
     [mkQuery "Calendar" "findOneAndUpdate"]).

(** [PUT /:calendarId], for a body that has a name. *)
Definition put_calendar (user : Claims) (calendarId : ObjectId)
  (name : jsstring) : DB Reply :=
  let userId := cl_id user in
  try_catch
    (calendar <- Calendar_findOneAndUpdate calendarId userId name ;;
     match calendar with
     | None => reply 404 (Plain (Message "Calendar not found"))
     | Some calendar => reply 200 (MessageCalendar "Calendar updated" calendar)
     end)
    (fun err =>
       reply 500 (Plain (MessageError "Server error during calendar update"
                                      err))).

(** *** routes/event.routes.js, continued *)

(** [GET /:calendarId/events] *)
Definition get_calendar_events (user : Claims) (calendarId : ObjectId)
  : DB Reply :=
  let userId := cl_id user in
  try_catch
    (calendar <- read "Calendar" "findById.populate"
                   (fun st =>
                      option_map
                        (fun c => (c, populate_events (events st) (c_events c)))
                        (find (fun c => c_id c =? calendarId)
                              (calendars st))) ;;
     match calendar with
     | None => reply 403 (Plain denied)
     | Some (calendar, calendar_events) =>
         if negb (c_owner calendar =? userId) then reply 403 (Plain denied)
         else reply 200 (Events calendar_events)
     end)
    (fun err =>
       reply 500 (Plain (MessageError "Server error during event retrieval"
                                      err))).

Definition Event_findByIdAndUpdate (eventId : ObjectId) (body : Patch)
  : DB (option Event) :=
  fun st =>
    let q := [mkQuery "Event" "findByIdAndUpdate"] in
    match find (fun e => e_id e =? eventId) (events st) with
    | None => (Ok None, st, q)
    | Some event =>
        match apply_set body event with
        | Throw err => (Throw err, st, q)
        | Ok updatedEvent =>
            (Ok (Some updatedEvent),
             set_events (update_first (fun e => e_id e =? eventId)
                                      (fun _ => updatedEvent)) st, q)
        end
    end.

Definition organizer_only : Payload :=
  Plain (Message "Access denied, only the organizer can update this event").

(** [PATCH /events/:eventId]; [event] in the answer is [null] when the
    update finds no document. *)
Definition patch_event (user : Claims) (eventId : ObjectId) (body : Patch)
  : DB Reply :=
  let userId := cl_id user in
  try_catch
    (event <- read "Event" "findById"
                (fun st => find (fun e => e_id e =? eventId) (events st)) ;;
     match event with
     | None => reply 403 organizer_only
     | Some event =>
         if negb (e_organizer event =? userId) then reply 403 organizer_only
         else
           updatedEvent <- Event_findByIdAndUpdate eventId body ;;
           reply 200 (MessageUpdated "Event updated successfully" updatedEvent)
     end)
    (fun err =>
       reply 500 (Plain (MessageError "Server error during event update"
                                      err))).

End OtherRoutes.

(** One request served: the store before and the store after, for
    every route and gate above, in every variant, with any arguments. *)
Inductive served (rt : Runtime) : Store -> Store -> Prop :=
| served_authMiddleware a now st :
    served rt st (store_of (authMiddleware rt a now st))
| served_authMiddleware_blacklist a now st :
    served rt st (store_of (authMiddleware_blacklist rt a now st))
| served_register i email password name now st :
    served rt st (store_of (post_register rt i email password name now st))
| served_register_unvalidated i email password name now st :
    served rt st
      (store_of (post_register_unvalidated rt i email password name now st))
| served_login cmp email password now st :
    served rt st (store_of (post_login rt cmp email password now st))
| served_refresh_token t now st :
    served rt st (store_of (post_refresh_token rt t now st))
| served_refresh_token_unbound t now st :
    served rt st (store_of (post_refresh_token_unbound t now st))
| served_logout t now st :
    served rt st (store_of (post_logout t now st))
| served_logout_by_email email st :
    served rt st (store_of (post_logout_by_email email st))
| served_users page limit st :
    served rt st (store_of (get_users page limit st))
| served_users_search email st :
    served rt st (store_of (get_users_search email st))
| served_post_calendar user name i st :
    served rt st (store_of (post_calendar user name i st))
| served_get_calendars user st :
    served rt st (store_of (get_calendars user st))
| served_put_calendar cast user i name st :
    served rt st (store_of (put_calendar cast user i name st))
| served_delete_calendar user i st :
    served rt st (store_of (delete_calendar user i st))
| served_post_event user i b j st :
    served rt st (store_of (post_calendar_events user i b j st))
| served_get_calendar_events user i st :
    served rt st (store_of (get_calendar_events user i st))
| served_get_event i st :
    served rt st (store_of (get_events_eventId i st))
| served_patch_event (Patch : Type) (apply_set : Patch -> Event -> Result Event)
    user i body st :
    served rt st (store_of (patch_event apply_set user i body st))
| served_delete_event user i j st :
    served rt st (store_of (delete_calendar_event user i j st))
| served_delete_event_record user i j st :
    served rt st (store_of (delete_calendar_event_record user i j st))
| served_events_day user date st :
    served rt st (store_of (get_events_day rt user date st)).

(** Any number of requests served one after the other. *)
Inductive later (rt : Runtime) : Store -> Store -> Prop :=
| later_now st : later rt st st
| later_next st st' st'' :
    later rt st st' -> served rt st' st'' -> later rt st st''.

(** The events of an answer of the day lookup, and nothing for any
    other answer. *)
Definition page_events (r : Result Response * Store * list Query)
  : list Event :=
  match response_of r with
  | Ok (mkResponse _ (EventList pes)) => map pe_event pes
  | _ => []
  end.


(** The [users] of a page answer, and nothing for any other answer. *)
Definition page_users (r : Result Reply * Store * list Query) : list Doc :=
  match response_of r with
  | Ok (mkReply _ (UsersPage _ _ _ _ us)) => us
  | _ => []
  end.

(* ================================================================= *)
(** ** The rules of the validator, as the specification words them *)

(** A rule is whether it holds and the message of its violation. *)
Definition has (p : jschar -> bool) (s : jsstring) : bool := existsb p s.

Definition credential_rules (email password : jsstring)
  : list (bool * string) :=
  [ (test emailRegex email, "Invalid email format");
    ((8 <=? List.length password)%nat,
     "Password must be at least 8 characters long");
    (has is_upper password,
     "Password must contain at least one uppercase letter");
    (has is_lower password,
     "Password must contain at least one lowercase letter");
    (has is_digit password,
     "Password must contain at least one digit");
    (has is_special password,
     "Password must contain at least one special character") ]%string.

Fixpoint first_violation (rules : list (bool * string)) : option string :=
  match rules with
  | [] => None
  | (holds, message) :: rules' =>
      if holds then first_violation rules' else Some message
  end.

(** What the email pattern accepts, spelled out: local part, [@], domain,
    a dot, and a last part, none empty, none holding white space or [@]. *)
Definition email_atom (c : jschar) : bool :=
  negb (is_space c || one_of (js "@") c).

Definition email_shape (s : jsstring) : Prop :=
  exists a b c : jsstring,
    s = a ++ js "@" ++ b ++ js "." ++ c
    /\ a <> [] /\ b <> [] /\ c <> []
    /\ forallb email_atom a = true
    /\ forallb email_atom b = true
    /\ forallb email_atom c = true.

(* ================================================================= *)
(** ** A concrete runtime

    Enough of a runtime to run the routes on examples: tokens that carry
    their secret and payload in the clear, a hash that tags the
    password, and the date-only form of the date-time string format. *)

Module Demo.

Definition secret : jsstring := js "access".
Definition refresh_secret : jsstring := js "refresh".

Fixpoint strip_prefix (p s : jsstring) : option jsstring :=
  match p, s with
  | [], _ => Some s
  | x :: p', y :: s' => if jschar_eqb x y then strip_prefix p' s' else None
  | _ :: _, [] => None
  end.

Definition sign (c : Claims) (key : jsstring) (expiresIn : string)
  (now : Date) : jsstring :=
  key ++ cl_id c :: cl_email c.

Definition verify (token key : jsstring) (now : Date) : option Claims :=
  match strip_prefix key token with
  | Some (i :: email) => Some (mkClaims email i None None)
  | _ => None
  end.

Definition hash (password : jsstring) (rounds : nat) : option jsstring :=
  Some (js "$2b$" ++ password).

Definition digit (c : jschar) : option Z :=
  if is_digit c then Some (Z.of_N (c - 48)) else None.

(** Days from 1970-01-01 to the civil date [y]-[m]-[d]; a day past the
    end of the month runs on into the next. *)
Definition days_from_civil (y m d : Z) : Z :=
  (let y' := if m <=? 2 then y - 1 else y in
   let era := y' / 400 in
   let yoe := y' - era * 400 in
   let doy := (153 * (if 2 <? m then m - 3 else m + 9) + 2) / 5 + d - 1 in
   let doe := yoe * 365 + yoe / 4 - yoe / 100 + doy in
   era * 146097 + doe - 719468)%Z.

(** Exactly [n] decimal digits. *)
Fixpoint number (n : nat) (acc : Z) (s : jsstring) : option (Z * jsstring) :=
  match n with
  | O => Some (acc, s)
  | S n' =>
      match s with
      | c :: s' =>
          match digit c with
          | Some d => number n' (acc * 10 + d)%Z s'
          | None => None
          end
      | [] => None
      end
  end.

(** The rest of [s] after the code unit [c], if [s] starts with it. *)
Definition expect (c : jschar) (s : jsstring) : option jsstring :=
  match s with
  | x :: s' => if x =? c then Some s' else None
  | [] => None
  end.

(** The year: four digits, or a sign and six (not minus zero). *)
Definition year_part (s : jsstring) : option (Z * jsstring) :=
  match expect 43 s, expect 45 s with
  | Some s', _ => number 6 0%Z s'
  | None, Some s' =>
      match number 6 0%Z s' with
      | Some (y, r) => if (y =? 0)%Z then None else Some ((- y)%Z, r)
      | None => None
      end
  | None, None => number 4 0%Z s
  end.

(** The date of a date-time string, [YYYY], [YYYY-MM] or [YYYY-MM-DD],
    as days from the epoch, and what follows it.  As in V8 the day may
    be anything from 01 to 31. *)
Definition date_part (s : jsstring) : option (Z * jsstring) :=
  match year_part s with
  | None => None
  | Some (y, rest) =>
      match expect 45 rest with
      | None => Some (days_from_civil y 1 1, rest)
      | Some r =>
          match number 2 0%Z r with
          | None => None
          | Some (m, rest') =>
              if negb ((1 <=? m) && (m <=? 12))%Z then None
              else
                match expect 45 rest' with
                | None => Some (days_from_civil y m 1, rest')
                | Some r' =>
                    match number 2 0%Z r' with
                    | None => None
                    | Some (d, rest'') =>
                        if ((1 <=? d) && (d <=? 31))%Z
                        then Some (days_from_civil y m d, rest'')
                        else None
                    end
                end
          end
      end
  end.

(** A date without a time, which [new Date] reads as midnight UTC. *)
Definition parse_date_only (s : jsstring) : option Date :=
  match date_part s with
  | Some (days, []) => Some (days * msPerDay)%Z
  | _ => None
  end.

Fixpoint take_digits (s : jsstring) : list Z * jsstring :=
  match s with
  | c :: s' =>
      match digit c with
      | Some d => let (ds, r) := take_digits s' in (d :: ds, r)
      | None => ([], s)
      end
  | [] => ([], [])
  end.

(** The seconds of a time, [:ss] or [:ss.s...], with the milliseconds
    (the first three digits of the fraction), and what follows; nothing
    when there is no colon. *)
Definition seconds_part (s : jsstring) : option (Z * Z * jsstring) :=
  match expect 58 s with
  | None => Some (0, 0, s)%Z
  | Some r =>
      match number 2 0%Z r with
      | None => None
      | Some (sec, rest) =>
          match expect 46 rest with
          | None => Some (sec, 0%Z, rest)
          | Some f =>
              match take_digits f with
              | ([], _) => None
              | (ds, rest') =>
                  Some (sec,
                        (nth 0 ds 0 * 100 + nth 1 ds 0 * 10 + nth 2 ds 0)%Z,
                        rest')
              end
          end
      end
  end.

(** [HH:mm], [HH:mm:ss] or [HH:mm:ss.s...], as milliseconds into the
    day, and what follows; 24:00 is the end of the day. *)
Definition time_part (s : jsstring) : option (Z * jsstring) :=
  match number 2 0%Z s with
  | None => None
  | Some (h, r) =>
      match expect 58 r with
      | None => None
      | Some r' =>
          match number 2 0%Z r' with
          | None => None
          | Some (m, r'') =>
              match seconds_part r'' with
              | None => None
              | Some (sec, ms, rest) =>
                  if ((m <=? 59) && (sec <=? 59)
                      && ((h <=? 23)
                          || ((h =? 24) && (m =? 0) && (sec =? 0)
                              && (ms =? 0))))%Z
                  then Some ((((h * 60 + m) * 60 + sec) * 1000 + ms)%Z, rest)
                  else None
              end
          end
      end
  end.

(** [+HH:mm] or [-HH:mm] to the end of the string, in milliseconds. *)
Definition offset_part (s : jsstring) : option Z :=
  match number 2 0%Z s with
  | None => None
  | Some (h, r) =>
      match expect 58 r with
      | None => None
      | Some r' =>
          match number 2 0%Z r' with
          | Some (m, []) =>
              if ((h <=? 23) && (m <=? 59))%Z
              then Some ((h * 60 + m) * 60000)%Z
              else None
          | _ => None
          end
      end
  end.

(** The end of a date-time string: nothing, which means local time,
    [Z], or an offset. *)
Definition instant_of (z : Zone) (tl : Z) (s : jsstring) : option Date :=
  match s with
  | [] => Some (UTC z tl)
  | _ :: _ =>
      match expect 90 s, expect 43 s, expect 45 s with
      | Some [], _, _ => Some tl
      | _, Some r, _ => option_map (fun off => tl - off)%Z (offset_part r)
      | _, _, Some r => option_map (fun off => tl + off)%Z (offset_part r)
      | _, _, _ => None
      end
  end.

(** [new Date(s)] for the strings of the date-time string format: a date
    alone, or a date, [T] and a time, read as local time unless an
    offset follows.  What the engine makes of any other string is its
    own heuristics; this runtime takes every such string for an invalid
    date, as the language specification allows, so it is to be run on
    strings of the format (and on ones no engine accepts). *)
Definition parse (z : Zone) (s : jsstring) : option Date :=
  match parse_date_only s with
  | Some t => Some t
  | None =>
      match date_part s with
      | None => None
      | Some (days, rest) =>
          match expect 84 rest with
          | None => None
          | Some r =>
              match time_part r with
              | Some (ms, rest') =>
                  instant_of z (days * msPerDay + ms)%Z rest'
              | None => None
              end
          end
      end
  end.

(** A server whose local time is [tz] minutes ahead of UTC. *)
Definition runtime (tz : Z) : Runtime :=
  mkRuntime secret refresh_secret sign verify hash (parse (fixed_zone tz))
            (fixed_zone tz) (Some (js "user")).

(** New York around 2023: daylight time from 2023-03-12T07:00Z, standard
    time again from 2023-11-05T06:00Z. *)
Definition new_york : Zone :=
  mkZone (-18000000)
         [(1678604400000, -14400000); (1699164000000, -18000000)]%Z.

Definition runtime_in (z : Zone) : Runtime :=
  mkRuntime secret refresh_secret sign verify hash (parse z) z
            (Some (js "user")).

Definition alice_refresh : jsstring :=
  sign (mkClaims (js "alice@example.com") 1 None None) refresh_secret "30d" 0%Z.

Definition alice : User :=
  mkUser 1 (js "alice@example.com") (js "$2b$Passw0rd!") (Some (js "Alice"))
         (Some (js "user")) (Some alice_refresh).

(** Bob has logged out. *)
Definition bob : User :=
  mkUser 2 (js "bob@example.com") (js "$2b$Passw0rd!") (Some (js "Bob"))
         (Some (js "user")) None.

Definition claims_of (u : User) : Claims :=
  mkClaims (u_email u) (u_id u) None None.

Definition empty : Store := mkStore [] [] [] [].

(** 2023-10-23T09:00:00.000Z to 09:15. *)
Definition standup : Event :=
  mkEvent 100 (js "Standup") None 1698051600000%Z 1698052500000%Z None 1 [2].

Definition work : Calendar := mkCalendar 10 (js "Work") 1 [100].

Definition store : Store := mkStore [alice; bob] [work] [standup] [].

Definition review : EventInput :=
  mkEventInput (Some (js "Review")) None (Some 1698055200000%Z)
               (Some 1698058800000%Z) None [].

End Demo.


(* ================================================================= *)
(** * Properties *)

Unset Implicit Arguments.

(** ** Strings *)

Lemma jsstring_eqb_eq (a b : jsstring) : jsstring_eqb a b = true <-> a = b.
Proof.
  revert b; induction a as [|x a IH]; intros [|y b]; simpl; try easy.
  unfold jschar_eqb. rewrite andb_true_iff, N.eqb_eq, IH.
  split; [intros [-> ->]; reflexivity | intros H; inversion H; auto].
Qed.

Lemma jsstring_eqb_refl (a : jsstring) : jsstring_eqb a a = true.
Proof. apply jsstring_eqb_eq; reflexivity. Qed.

(** ** The derivative matcher decides the language *)

Module RegexFacts.

Lemma lang_void w : lang Void w <-> False.
Proof. split; [intros H; inversion H | easy]. Qed.

Lemma lang_eps w : lang Eps w <-> w = [].
Proof. split; [intros H; now inversion H | intros ->; constructor]. Qed.

Lemma lang_cls p w : lang (Cls p) w <-> exists c, w = [c] /\ p c = true.
Proof.
  split.
  - intros H; inversion H; subst; eauto.
  - intros (c & -> & Hc); now constructor.
Qed.

Lemma lang_cat r s w :
  lang (Cat r s) w <-> exists u v, w = u ++ v /\ lang r u /\ lang s v.
Proof.
  split.
  - intros H; inversion H; subst; eauto.
  - intros (u & v & -> & Hu & Hv); now constructor.
Qed.

Lemma lang_alt r s w : lang (Alt r s) w <-> lang r w \/ lang s w.
Proof.
  split.
  - intros H; inversion H; subst; auto.
  - intros [H|H]; [now apply L_alt_l | now apply L_alt_r].
Qed.

Lemma nullable_lang r : nullable r = true <-> lang r [].
Proof.
  induction r; simpl.
  - rewrite lang_void. split; [discriminate | easy].
  - rewrite lang_eps. easy.
  - rewrite lang_cls. split; [discriminate | intros (c & E & _); discriminate].
  - rewrite andb_true_iff, IHr1, IHr2, lang_cat. split.
    + intros [H1 H2]. exists [], []. auto.
    + intros (u & v & E & Hu & Hv). symmetry in E.
      apply app_eq_nil in E as [-> ->]. auto.
  - now rewrite orb_true_iff, IHr1, IHr2, lang_alt.
  - split; [constructor | reflexivity].
Qed.

(** A non-empty word of a star starts with a non-empty word of the body. *)
Lemma star_cons r w :
  lang (Star r) w ->
  forall c s, w = c :: s ->
  exists u v, s = u ++ v /\ lang r (c :: u) /\ lang (Star r) v.
Proof.
  intros H. remember (Star r) as q eqn:Eq.
  induction H as [| | | | | r0 | r0 u v Hu _ Hv IHv]; try discriminate.
  injection Eq as ->. intros c s E.
  destruct u as [|x u]; simpl in E.
  - apply (IHv eq_refl c s E).
  - injection E as -> <-. exists u, v. auto.
Qed.

(** Splitting a word of a concatenation on its first code unit. *)
Lemma lang_cat_cons r s c w :
  lang (Cat r s) (c :: w) <->
  (exists u v, w = u ++ v /\ lang r (c :: u) /\ lang s v)
  \/ (lang r [] /\ lang s (c :: w)).
Proof.
  rewrite lang_cat. split.
  - intros (u & v & E & Hu & Hv). destruct u as [|x u]; simpl in E.
    + right. subst v. auto.
    + injection E as -> ->. left. eauto.
  - intros [(u & v & -> & Hu & Hv) | [Hu Hv]].
    + exists (c :: u), v. auto.
    + exists [], (c :: w). auto.
Qed.

Lemma deriv_lang c r : forall s, lang (deriv c r) s <-> lang r (c :: s).
Proof.
  induction r; intros w; simpl.
  - now rewrite !lang_void.
  - rewrite lang_void, lang_eps. split; [easy | discriminate].
  - rewrite lang_cls. destruct (p c) eqn:E.
    + rewrite lang_eps. split.
      * intros ->. eauto.
      * intros (x & Ex & _). now injection Ex.
    + rewrite lang_void. split; [easy |].
      intros (x & Ex & Hx). injection Ex as <- _. congruence.
  - assert (Hcat : lang (Cat (deriv c r1) r2) w <->
                   exists u v, w = u ++ v /\ lang r1 (c :: u) /\ lang r2 v).
    { rewrite lang_cat. split; intros (u & v & E & Hu & Hv);
        exists u, v; repeat split; auto; now apply IHr1. }
    rewrite lang_cat_cons, <- Hcat. destruct (nullable r1) eqn:En.
    + rewrite lang_alt, IHr2. apply nullable_lang in En. tauto.
    + split; [auto |]. intros [H | [H _]]; [easy |].
      apply nullable_lang in H. congruence.
  - now rewrite !lang_alt, IHr1, IHr2.
  - rewrite lang_cat. split.
    + intros (u & v & -> & Hu & Hv). apply IHr in Hu.
      change (c :: u ++ v) with ((c :: u) ++ v). now constructor.
    + intros H. destruct (star_cons _ _ H _ _ eq_refl) as (u & v & -> & Hu & Hv).
      exists u, v. repeat split; auto. now apply IHr.
Qed.

Lemma matches_lang r s : matches r s = true <-> lang r s.
Proof.
  revert r; induction s as [|c s IH]; intros r; simpl.
  - apply nullable_lang.
  - rewrite IH. apply deriv_lang.
Qed.

Lemma lang_star_any s : lang (Star Any) s.
Proof.
  induction s as [|c s IH]; [constructor |].
  change (c :: s) with ([c] ++ s). constructor; [now constructor | easy].
Qed.

Lemma lang_star_cls p s : lang (Star (Cls p)) s <-> forallb p s = true.
Proof.
  split.
  - intros H. remember (Star (Cls p)) as q eqn:Eq.
    induction H as [| | | | | r0 | r0 u v Hu _ Hv IHv]; try discriminate.
    + reflexivity.
    + injection Eq as ->. apply lang_cls in Hu as (c & -> & Hc). simpl.
      now rewrite Hc, (IHv eq_refl).
  - induction s as [|c s IH]; simpl; [constructor |].
    rewrite andb_true_iff. intros [Hc Hs].
    change (c :: s) with ([c] ++ s). constructor; [now constructor | auto].
Qed.

Lemma lang_plus_cls p s :
  lang (Plus (Cls p)) s <-> s <> [] /\ forallb p s = true.
Proof.
  unfold Plus. rewrite lang_cat. split.
  - intros (u & v & -> & Hu & Hv).
    apply lang_cls in Hu as (c & -> & Hc). apply lang_star_cls in Hv.
    simpl. split; [discriminate | now rewrite Hc, Hv].
  - destruct s as [|c s]; [intros [[] _]; reflexivity |].
    simpl. rewrite andb_true_iff. intros [_ [Hc Hs]].
    exists [c], s. repeat split; [now constructor | now apply lang_star_cls].
Qed.

(** [/[class]/.test(s)] holds when some code unit of [s] is in the class. *)
Lemma test_search_cls p s : test (Search (Cls p)) s = has p s.
Proof.
  apply eq_true_iff_eq. unfold test, has. rewrite matches_lang, existsb_exists.
  rewrite lang_cat. split.
  - intros (u & v & -> & _ & Hv).
    apply lang_cat in Hv as (a & b & -> & Ha & _).
    apply lang_cls in Ha as (c & -> & Hc). exists c. split; [|easy].
    apply in_or_app; right. now left.
  - intros (c & Hin & Hc). apply in_split in Hin as (u & v & ->).
    exists u, (c :: v). repeat split; [apply lang_star_any |].
    apply lang_cat. exists [c], v.
    repeat split; [now constructor | apply lang_star_any].
Qed.

(** The email pattern accepts exactly the strings of [email_shape]. *)
Lemma test_emailRegex s : test emailRegex s = true <-> email_shape s.
Proof.
  unfold emailRegex, email_shape, test. rewrite matches_lang.
  fold email_atom. split.
  - intros H.
    apply lang_cat in H as (a & w1 & -> & Ha & H).
    apply lang_cat in H as (x & w2 & -> & Hx & H).
    apply lang_cat in H as (b & w3 & -> & Hb & H).
    apply lang_cat in H as (y & c & -> & Hy & Hc).
    apply lang_plus_cls in Ha as [Ha1 Ha2].
    apply lang_plus_cls in Hb as [Hb1 Hb2].
    apply lang_plus_cls in Hc as [Hc1 Hc2].
    apply lang_cls in Hx as (cx & -> & Hx).
    apply lang_cls in Hy as (cy & -> & Hy).
    unfold one_of in Hx, Hy. simpl in Hx, Hy.
    rewrite orb_false_r in Hx, Hy. apply N.eqb_eq in Hx, Hy. subst cx cy.
    exists a, b, c. repeat split; auto.
  - intros (a & b & c & -> & Ha & Hb & Hc & Fa & Fb & Fc).
    apply lang_cat. exists a, (js "@" ++ b ++ js "." ++ c).
    repeat split; [now apply lang_plus_cls |].
    apply lang_cat. exists (js "@"), (b ++ js "." ++ c).
    repeat split; [now constructor |].
    apply lang_cat. exists b, (js "." ++ c).
    repeat split; [now apply lang_plus_cls |].
    apply lang_cat. exists (js "."), c.
    repeat split; [now constructor | now apply lang_plus_cls].
Qed.

End RegexFacts.

Import RegexFacts.

(** ** The credential validator *)

Lemma first_violation_at (pre post : list (bool * string)) (m : string) :
  (forall r, In r pre -> fst r = true) ->
  first_violation (pre ++ (false, m) :: post) = Some m.
Proof.
  induction pre as [|[h msg] pre IH]; simpl; intros Hpre; [reflexivity |].
  assert (Hh : h = true) by exact (Hpre (h, msg) (or_introl eq_refl)).
  rewrite Hh. apply IH. intros r Hr. apply Hpre. now right.
Qed.

Lemma first_violation_none (rules : list (bool * string)) :
  first_violation rules = None <-> forall r, In r rules -> fst r = true.
Proof.
  induction rules as [|[h msg] rules IH]; simpl.
  - split; [intros _ r [] | reflexivity].
  - destruct h; simpl.
    + rewrite IH. split.
      * intros H r [<- | Hr]; [reflexivity | now apply H].
      * intros H r Hr. apply H. now right.
    + split; [discriminate |].
      intros H. specialize (H (false, msg) (or_introl eq_refl)). discriminate.
Qed.

Lemma validateUserCredentials_rules (email password : jsstring) :
  validateUserCredentials email password
  = first_violation (credential_rules email password).
Proof.
  unfold validateUserCredentials, credential_rules, first_violation.
  unfold uppercaseRegex, lowercaseRegex, digitRegex, specialCharRegex, minLength.
  rewrite !test_search_cls, Nat.ltb_antisym.
  generalize (test emailRegex email) (8 <=? List.length password)%nat
             (has is_upper password) (has is_lower password)
             (has is_digit password) (has is_special password).
  intros [] [] [] [] [] []; reflexivity.
Qed.

(** C4.  For every email string and password string the validator
    returns null when all six rules hold and otherwise the message of the
    first rule that fails, in the order email pattern, length at least 8,
    an uppercase letter, a lowercase letter, a digit, a special
    character, whatever the later rules say. *)
Theorem validateUserCredentials_first_violation (email password : jsstring) :
  validateUserCredentials email password
  = first_violation (credential_rules email password)
  /\ (validateUserCredentials email password = None <->
      forall r, In r (credential_rules email password) -> fst r = true)
  /\ (forall pre m post,
        credential_rules email password = pre ++ (false, m) :: post ->
        (forall r, In r pre -> fst r = true) ->
        validateUserCredentials email password = Some m).
Proof.
  rewrite validateUserCredentials_rules. split; [reflexivity | split].
  - apply first_violation_none.
  - intros pre m post -> Hpre. now apply first_violation_at.
Qed.

Lemma validateUserCredentials_first_violation_witness :
  validateUserCredentials (js "user@example.com") (js "abc")
  = Some "Password must be at least 8 characters long"%string.
Proof.
  destruct (validateUserCredentials_first_violation
              (js "user@example.com") (js "abc")) as (_ & _ & H).
  apply (H [(true, "Invalid email format"%string)] _
           (tl (tl (credential_rules (js "user@example.com") (js "abc"))))).
  - reflexivity.
  - intros r [<- | []]. reflexivity.
Defined.

Example validate_ok :
  validateUserCredentials (js "user@example.com") (js "Password123!") = None.
Proof. reflexivity. Qed.

Example validate_several_fail :
  validateUserCredentials (js "user@example.com") (js "abc")
  = Some "Password must be at least 8 characters long"%string.
Proof. reflexivity. Qed.

Example validate_email_first :
  validateUserCredentials (js "user@example") (js "abc")
  = Some "Invalid email format"%string.
Proof. reflexivity. Qed.

(** ** Store operations *)

Lemma set_calendars_same (st : Store) :
  set_calendars (fun l => l) st = st.
Proof. now destruct st. Qed.

Lemma remove_first_none {A} (p : A -> bool) (l : list A) :
  find p l = None -> remove_first p l = l.
Proof.
  induction l as [|x l IH]; simpl; [reflexivity |].
  destruct (p x); [discriminate |]. intros H. now rewrite IH.
Qed.

Lemma find_none_iff {A} (p : A -> bool) (l : list A) :
  find p l = None <-> forall x, In x l -> p x = false.
Proof.
  split.
  - intros H x Hx. now apply (find_none p l H).
  - induction l as [|x l IH]; simpl; [reflexivity |]. intros H.
    rewrite (H x (or_introl eq_refl)). apply IH. intros y Hy. apply H. now right.
Qed.

Lemma find_update_first {A} (p : A -> bool) (f : A -> A) (l : list A) (x : A) :
  find p l = Some x -> p (f x) = true ->
  find p (update_first p f l) = Some (f x).
Proof.
  induction l as [|y l IH]; simpl; [discriminate |].
  destruct (p y) eqn:E; simpl.
  - intros [= ->] H. now rewrite H.
  - intros Hf H. rewrite E. now apply IH.
Qed.

Lemma find_app_fresh {A} (p : A -> bool) (l : list A) (x : A) :
  (forall y, In y l -> p y = false) -> p x = true ->
  find p (l ++ [x]) = Some x.
Proof.
  induction l as [|y l IH]; simpl; intros Hl Hx.
  - now rewrite Hx.
  - rewrite (Hl y (or_introl eq_refl)). apply IH; [|easy].
    intros z Hz. apply Hl. now right.
Qed.

(** ** The day lookup *)

(** C10.  When the date parameter does not parse to a valid date, the
    handler of the day lookup answers 400 with "Invalid date format",
    leaves the store as it is and awaits no model call. *)
Theorem get_events_day_invalid_date (rt : Runtime) (user : Claims)
  (date : jsstring) (st : Store) :
  Date_parse rt date = None ->
  get_events_day rt user date st
  = (Ok (mkResponse 400 (Message "Invalid date format")), st, []).
Proof.
  intros H. unfold get_events_day, try_catch, send, ret. now rewrite H.
Qed.

Lemma get_events_day_invalid_date_witness :
  Date_parse (Demo.runtime 0) (js "tomorrow") = None
  /\ get_events_day (Demo.runtime 0) (Demo.claims_of Demo.alice)
                    (js "tomorrow") Demo.empty
     = (Ok (mkResponse 400 (Message "Invalid date format")), Demo.empty, []).
Proof.
  split; [reflexivity |].
  apply (get_events_day_invalid_date (Demo.runtime 0)). reflexivity.
Defined.

(** ** Event creation *)

(** C5.  When no calendar of the given id is owned by the requester (it
    has another owner, or there is none), event creation answers 403
    and the store, events and calendars alike, is what it was. *)
Theorem post_calendar_events_not_owner (user : Claims)
  (calendarId : ObjectId) (b : EventInput) (newId : ObjectId) (st : Store) :
  (forall c, In c (calendars st) -> c_id c = calendarId ->
             c_owner c <> cl_id user) ->
  post_calendar_events user calendarId b newId st
  = (Ok (mkResponse 403 denied), st, [mkQuery "Calendar" "findById"]).
Proof.
  intros H. unfold post_calendar_events, try_catch, bind, Calendar_findById, read.
  destruct (find _ (calendars st)) as [c|] eqn:F; [|reflexivity].
  apply find_some in F as [Hin Hid]. apply N.eqb_eq in Hid.
  apply (H c Hin) in Hid. apply N.eqb_neq in Hid. now rewrite Hid.
Qed.

Lemma post_calendar_events_not_owner_witness :
  post_calendar_events (Demo.claims_of Demo.bob) 10 Demo.review 101 Demo.store
  = (Ok (mkResponse 403 denied), Demo.store, [mkQuery "Calendar" "findById"]).
Proof.
  apply post_calendar_events_not_owner.
  intros c [<- | []] _. simpl. discriminate.
Defined.

(** ** Calendar deletion *)

(** C8.  When the requester is not the owner of calendar [C], deleting
    it answers 404, the store is what it was, and the listing of the
    owner still returns [C]. *)
Theorem delete_calendar_not_owner (user : Claims) (C : Calendar) (st : Store) :
  In C (calendars st) ->
  (forall c, In c (calendars st) -> c_id c = c_id C -> c = C) ->
  cl_id user <> c_owner C ->
  delete_calendar user (c_id C) st
  = (Ok (mkResponse 404 (Message "Calendar not found")), st,
     [mkQuery "Calendar" "findOneAndDelete"])
  /\ forall owner, cl_id owner = c_owner C ->
       exists cs,
         response_of (get_calendars owner
                        (store_of (delete_calendar user (c_id C) st)))
         = Ok (mkResponse 200 (CalendarList cs))
         /\ In C cs.
Proof.
  intros Hin Huniq Hneq.
  assert (E : delete_calendar user (c_id C) st
              = (Ok (mkResponse 404 (Message "Calendar not found")), st,
                 [mkQuery "Calendar" "findOneAndDelete"])).
  { unfold delete_calendar, try_catch, bind, Calendar_findOneAndDelete.
    assert (F : find (fun c => (c_id c =? c_id C) && (c_owner c =? cl_id user))
                     (calendars st) = None).
    { apply find_none_iff. intros c Hc.
      destruct (c_id c =? c_id C) eqn:Eid; [|reflexivity]. simpl.
      apply N.eqb_eq in Eid. rewrite (Huniq c Hc Eid).
      apply N.eqb_neq. congruence. }
    rewrite F. unfold set_calendars. rewrite (remove_first_none _ _ F).
    now destruct st. }
  split; [exact E |].
  intros owner Ho. rewrite E.
  exists (filter (fun c => c_owner c =? cl_id owner) (calendars st)).
  split; [reflexivity |].
  apply filter_In. split; [exact Hin |]. apply N.eqb_eq. now rewrite Ho.
Qed.

Lemma delete_calendar_not_owner_witness :
  delete_calendar (Demo.claims_of Demo.bob) 10 Demo.store
  = (Ok (mkResponse 404 (Message "Calendar not found")), Demo.store,
     [mkQuery "Calendar" "findOneAndDelete"])
  /\ exists cs,
       response_of (get_calendars (Demo.claims_of Demo.alice)
                      (store_of (delete_calendar (Demo.claims_of Demo.bob)
                                                 10 Demo.store)))
       = Ok (mkResponse 200 (CalendarList cs))
       /\ In Demo.work cs.
Proof.
  assert (H1 : In Demo.work (calendars Demo.store)) by (left; reflexivity).
  assert (H2 : forall c, In c (calendars Demo.store) ->
                         c_id c = c_id Demo.work -> c = Demo.work)
    by (intros c [<- | []] _; reflexivity).
  assert (H3 : cl_id (Demo.claims_of Demo.bob) <> c_owner Demo.work)
    by (simpl; discriminate).
  destruct (delete_calendar_not_owner (Demo.claims_of Demo.bob) Demo.work
              Demo.store H1 H2 H3) as [E K].
  split; [exact E |].
  exact (K (Demo.claims_of Demo.alice) eq_refl).
Defined.

(** ** Event removal *)

Lemma includes_In (l : list ObjectId) (i : ObjectId) :
  includes l i = true <-> In i l.
Proof.
  unfold includes. rewrite existsb_exists. split.
  - intros (x & Hx & E). apply N.eqb_eq in E. now subst.
  - intros H. exists i. split; [easy | apply N.eqb_refl].
Qed.






(** The other variant deletes the event document whether or not the
    calendar lists it. *)
Lemma delete_calendar_event_record_unlisted :
  let r := delete_calendar_event_record (Demo.claims_of Demo.alice) 10 100
             (mkStore [Demo.alice] [mkCalendar 10 (js "Work") 1 []]
                      [Demo.standup] []) in
  response_of r = Ok (mkResponse 200 (Message "Event deleted successfully"))
  /\ events (store_of r) = [].
Proof. split; reflexivity. Qed.

(** ** Token refresh *)

(** The refresh route writes nothing, whatever it answers. *)
Lemma post_refresh_token_frame (rt : Runtime) (refreshToken : option jsstring)
  (now : Date) (st : Store) :
  store_of (post_refresh_token rt refreshToken now st) = st.
Proof.
  unfold post_refresh_token, try_catch, bind, User_findOne_refreshToken, read.
  destruct refreshToken as [[|c t]|]; simpl; try reflexivity.
  destruct (find _ (users st)); [|reflexivity].
  destruct (jwt_verify rt _ _ _); reflexivity.
Qed.

(** C6.  A refresh-token exchange that succeeds answers with one field,
    an access token signed then for the identity that holds the refresh
    token, and leaves the store, so every field of every identity, as it
    was. *)
Theorem post_refresh_token_success (rt : Runtime)
  (refreshToken : option jsstring) (now : Date) (st : Store) (r : Response) :
  response_of (post_refresh_token rt refreshToken now st) = Ok r ->
  status r = 200%nat ->
  store_of (post_refresh_token rt refreshToken now st) = st
  /\ exists token user,
       refreshToken = Some token
       /\ In user (users st)
       /\ u_refreshToken user = Some token
       /\ body r = AccessTokenOnly (generateAccessToken rt user now).
Proof.
  intros Hr Hs. split; [apply post_refresh_token_frame |].
  revert Hr.
  unfold post_refresh_token, try_catch, bind, User_findOne_refreshToken, read.
  destruct refreshToken as [[|c t]|]; simpl;
    try (intros [= <-]; discriminate).
  destruct (find _ (users st)) as [u|] eqn:F;
    [|intros [= <-]; discriminate].
  destruct (jwt_verify rt _ _ _); simpl; [|intros [= <-]; discriminate].
  intros [= <-]. apply find_some in F as [Hin Ht].
  destruct (u_refreshToken u) as [t'|] eqn:Eu; [|discriminate].
  apply jsstring_eqb_eq in Ht. subst t'.
  exists (c :: t), u. auto.
Qed.

Lemma post_refresh_token_success_witness :
  store_of (post_refresh_token (Demo.runtime 0) (Some Demo.alice_refresh)
                               5%Z Demo.store) = Demo.store
  /\ exists token user,
       Some Demo.alice_refresh = Some token
       /\ In user (users Demo.store)
       /\ u_refreshToken user = Some token
       /\ AccessTokenOnly (generateAccessToken (Demo.runtime 0) Demo.alice 5%Z)
          = AccessTokenOnly (generateAccessToken (Demo.runtime 0) user 5%Z).
Proof.
  apply (post_refresh_token_success (Demo.runtime 0) (Some Demo.alice_refresh)
           5%Z Demo.store
           (mkResponse 200 (AccessTokenOnly
              (generateAccessToken (Demo.runtime 0) Demo.alice 5%Z))));
    reflexivity.
Defined.

(** The earlier variants of the file never get as far as signing. *)
Lemma post_refresh_token_unbound_never_200 (refreshToken : option jsstring)
  (now : Date) (st : Store) (r : Response) :
  response_of (post_refresh_token_unbound refreshToken now st) = Ok r ->
  status r <> 200%nat.
Proof.
  unfold post_refresh_token_unbound, try_catch, bind,
    User_findOne_refreshToken, read.
  destruct refreshToken as [[|c t]|]; simpl;
    try (intros [= <-]; discriminate).
  destruct (find _ (users st)); intros [= <-]; discriminate.
Qed.

(** ** Creating an event and reading it back *)

Lemma populate_user_no_secrets (us : list User) (i : ObjectId) (d : Doc) :
  populate_user us i = Some d ->
  field "_id" d = Some (VId i)
  /\ field "password" d = None /\ field "refreshToken" d = None.
Proof.
  unfold populate_user. destruct (find _ us) as [u|] eqn:F; [|discriminate].
  intros [= <-]. apply find_some in F as [_ E]. apply N.eqb_eq in E. subst i.
  destruct u as [i em pw [n|] [r|] t]; repeat split; reflexivity.
Qed.

(** C9, as the schema has it.  An event created with a title that is not
    blank, a start and an end, under a calendar of the requester that
    passes its schema (its stored name is not empty) and an id no
    stored event has, reads back by its id with the title trimmed of
    surrounding white space, the same start and end, and the organizer
    expanded to the requester's document without its password and
    refresh token. *)
Theorem create_then_get_event (user : Claims) (calendarId newId : ObjectId)
  (b : EventInput) (title : jsstring) (s e : Date) (st : Store)
  (c : Calendar) (u : User) :
  in_title b = Some title -> trim title <> [] ->
  in_startTime b = Some s -> in_endTime b = Some e ->
  find (fun x => c_id x =? calendarId) (calendars st) = Some c ->
  c_owner c = cl_id user ->
  c_name c <> [] ->
  (forall ev, In ev (events st) -> e_id ev <> newId) ->
  find (fun x => u_id x =? cl_id user) (users st) = Some u ->
  let r := post_calendar_events user calendarId b newId st in
  exists ev pe d,
    response_of r
    = Ok (mkResponse 201 (MessageEvent "Event created successfully" ev))
    /\ response_of (get_events_eventId (e_id ev) (store_of r))
       = Ok (mkResponse 200 (EventDetail pe))
    /\ e_title (pe_event pe) = trim title
    /\ e_startTime (pe_event pe) = s
    /\ e_endTime (pe_event pe) = e
    /\ pe_organizer pe = Some d
    /\ field "_id" d = Some (VId (cl_id user))
    /\ field "password" d = None
    /\ field "refreshToken" d = None.
Proof.
  intros Ht Hne Hs He F Ho Hname Hfresh Fu r.
  assert (Eo : (c_owner c =? cl_id user) = true) by now apply N.eqb_eq.
  set (ev := mkEvent newId (trim title) (option_map trim (in_description b))
                     s e (option_map trim (in_location b)) (cl_id user)
                     (in_attendees b)).
  assert (Er : r = (Ok (mkResponse 201
                          (MessageEvent "Event created successfully" ev)),
                    set_calendars
                      (update_first (fun x => c_id x =? c_id c)
                                    (fun _ => push_event newId c))
                      (set_events (fun es => es ++ [ev]) st),
                    [mkQuery "Calendar" "findById"; mkQuery "Event" "save";
                     mkQuery "Calendar" "save"])).
  { subst r. unfold post_calendar_events, try_catch, bind, Calendar_findById,
      read, Event_save, validate_event, cast_event, Calendar_save.
    rewrite F, Eo. simpl. rewrite Ht, Hs, He. simpl.
    destruct (trim title) as [|x t] eqn:Et; [contradiction |]. simpl.
    destruct (c_name c); [contradiction | reflexivity]. }
  rewrite Er. clear Er r.
  assert (Fev : find (fun x => e_id x =? newId) (events st ++ [ev]) = Some ev).
  { apply find_app_fresh; [|apply N.eqb_refl].
    intros y Hy. apply N.eqb_neq. now apply Hfresh. }
  destruct (populate_user (users st) (cl_id user)) as [d|] eqn:P.
  2:{ unfold populate_user in P. rewrite Fu in P. discriminate. }
  exists ev, (populate_event (users st) ev), d.
  destruct (populate_user_no_secrets _ _ _ P) as (H1 & H2 & H3).
  repeat split; try assumption.
  unfold get_events_eventId, try_catch, bind, read, response_of, store_of,
    set_calendars, set_events.
  cbn [fst snd events users]. change (e_id ev) with newId.
  now rewrite Fev.
Qed.

Lemma create_then_get_event_witness :
  exists ev pe d,
    response_of (post_calendar_events (Demo.claims_of Demo.alice) 10
                   Demo.review 101 Demo.store)
    = Ok (mkResponse 201 (MessageEvent "Event created successfully" ev))
    /\ response_of (get_events_eventId (e_id ev)
                      (store_of (post_calendar_events
                                   (Demo.claims_of Demo.alice) 10
                                   Demo.review 101 Demo.store)))
       = Ok (mkResponse 200 (EventDetail pe))
    /\ e_title (pe_event pe) = trim (js "Review")
    /\ e_startTime (pe_event pe) = 1698055200000%Z
    /\ e_endTime (pe_event pe) = 1698058800000%Z
    /\ pe_organizer pe = Some d
    /\ field "_id" d = Some (VId 1)
    /\ field "password" d = None
    /\ field "refreshToken" d = None.
Proof.
  apply (create_then_get_event (Demo.claims_of Demo.alice) 10 101 Demo.review
           (js "Review") 1698055200000%Z 1698058800000%Z Demo.store
           Demo.work Demo.alice); try reflexivity.
  - simpl. discriminate.
  - simpl. discriminate.
  - intros ev [<- | []]. simpl. discriminate.
Defined.

(** C9 as stated fails on a title with surrounding white space: what
    reads back is not the title that was given. *)
Lemma create_then_get_event_title_differs :
  let b := mkEventInput (Some (js " Standup")) None (Some 1698051600000%Z)
                        (Some 1698052500000%Z) None [] in
  let r := post_calendar_events (Demo.claims_of Demo.alice) 10 b 101
                                Demo.store in
  exists ev pe,
    response_of r
    = Ok (mkResponse 201 (MessageEvent "Event created successfully" ev))
    /\ response_of (get_events_eventId (e_id ev) (store_of r))
       = Ok (mkResponse 200 (EventDetail pe))
    /\ e_title (pe_event pe) = js "Standup"
    /\ e_title (pe_event pe) <> js " Standup".
Proof.
  simpl. eexists. eexists. repeat split; try reflexivity. discriminate.
Qed.

Lemma drop_while_head (p : jschar -> bool) (s : jsstring) :
  (forall c, hd_error s = Some c -> p c = false) -> drop_while p s = s.
Proof.
  destruct s as [|c s]; simpl; [reflexivity |].
  intros H. now rewrite (H c eq_refl).
Qed.

(** A title with no white space at either end is stored as given. *)
Lemma trim_fixed (s : jsstring) :
  (forall c, hd_error s = Some c -> is_space c = false) ->
  (forall c, hd_error (rev s) = Some c -> is_space c = false) ->
  trim s = s.
Proof.
  intros H1 H2. unfold trim.
  rewrite (drop_while_head _ s H1), (drop_while_head _ (rev s) H2).
  apply rev_involutive.
Qed.

(** ** Registration *)

Lemma find_email_some (email : jsstring) (us : list User) :
  (exists u, In u us /\ u_email u = email) ->
  exists u, find (fun u => jsstring_eqb (u_email u) email) us = Some u.
Proof.
  intros (u & Hin & E).
  destruct (find _ us) as [u'|] eqn:F; [eauto |].
  apply (find_none _ _ F) in Hin. simpl in Hin.
  rewrite E, jsstring_eqb_refl in Hin. discriminate.
Qed.

(** C2, as the routes have it.  A registration whose email belongs to
    an existing identity is answered 400 and writes nothing; the message
    is "User already registered" in the variants without a credential
    check for every password, and in the route with the check when the
    credentials pass it; credentials that fail the check get the message
    of the violated rule instead, before any lookup. *)
Theorem post_register_existing_email (rt : Runtime) (newId : ObjectId)
  (email password : jsstring) (name : option jsstring) (now : Date)
  (st : Store) :
  (exists u, In u (users st) /\ u_email u = email) ->
  post_register_unvalidated rt newId email password name now st
  = (Ok (mkResponse 400 (Message "User already registered")), st,
     [mkQuery "User" "findOne"])
  /\ (validateUserCredentials email password = None ->
      post_register rt newId email password name now st
      = (Ok (mkResponse 400 (Message "User already registered")), st,
         [mkQuery "User" "findOne"]))
  /\ (forall m, validateUserCredentials email password = Some m ->
      post_register rt newId email password name now st
      = (Ok (mkResponse 400 (Message m)), st, [])).
Proof.
  intros H. apply find_email_some in H as [u F].
  repeat split.
  - unfold post_register_unvalidated, try_catch, bind, User_findOne_email, read.
    now rewrite F.
  - intros V.
    unfold post_register, try_catch, bind, User_findOne_email, read.
    now rewrite V, F.
  - intros m V. unfold post_register, try_catch. now rewrite V.
Qed.

Lemma post_register_existing_email_witness :
  post_register_unvalidated (Demo.runtime 0) 3 (js "alice@example.com")
                            (js "password") None 0%Z Demo.store
  = (Ok (mkResponse 400 (Message "User already registered")), Demo.store,
     [mkQuery "User" "findOne"])
  /\ post_register (Demo.runtime 0) 3 (js "alice@example.com")
                   (js "Passw0rd!") None 0%Z Demo.store
     = (Ok (mkResponse 400 (Message "User already registered")), Demo.store,
        [mkQuery "User" "findOne"]).
Proof.
  assert (H : exists u, In u (users Demo.store)
                        /\ u_email u = js "alice@example.com")
    by (exists Demo.alice; split; [left|]; reflexivity).
  split.
  - apply (post_register_existing_email (Demo.runtime 0) 3
             (js "alice@example.com") (js "password") None 0%Z Demo.store H).
  - apply (post_register_existing_email (Demo.runtime 0) 3
             (js "alice@example.com") (js "Passw0rd!") None 0%Z Demo.store H).
    reflexivity.
Defined.

(** C2 as stated fails in the route with the credential check: a
    registered email with a password that has no uppercase letter is
    answered with the message of that rule. *)
Lemma post_register_existing_email_weak_password :
  (exists u, In u (users Demo.store) /\ u_email u = js "alice@example.com")
  /\ response_of (post_register (Demo.runtime 0) 3 (js "alice@example.com")
                                (js "password") None 0%Z Demo.store)
     = Ok (mkResponse 400
             (Message "Password must contain at least one uppercase letter"))
  /\ response_of (post_register (Demo.runtime 0) 3 (js "alice@example.com")
                                (js "password") None 0%Z Demo.store)
     <> Ok (mkResponse 400 (Message "User already registered")).
Proof.
  split; [exists Demo.alice; split; [left|]; reflexivity |].
  split; [reflexivity | discriminate].
Qed.

(** A new email with valid credentials registers: the success path of
    the route, on the concrete runtime. *)
Example post_register_new_email :
  let r := post_register (Demo.runtime 0) 3 (js "carol@example.com")
                         (js "Passw0rd!") None 7%Z Demo.store in
  (exists a t, response_of r
               = Ok (mkResponse 201 (MessageTokens "Registration successful"
                                                   a t))
               /\ option_map u_refreshToken
                    (find (fun u => u_id u =? 3) (users (store_of r)))
                  = Some (Some t))
  /\ List.length (users (store_of r)) = 3%nat.
Proof. split; [eexists; eexists; split; reflexivity | reflexivity]. Qed.

(** ** The auth gate *)

(** What the blacklist variant does with a token: it answers "revoked"
    exactly when the token is on the blacklist, and hands every other
    token to the signature check. *)
Lemma authMiddleware_blacklist_revoked (rt : Runtime) (token : jsstring)
  (now : Date) (st : Store) :
  token <> [] ->
  ((exists b, In b (blacklist st) /\ b_token b = token) ->
   authMiddleware_blacklist rt (Some token) now st
   = (Ok (Responded revoked), st, [mkQuery "Blacklist" "findOne"]))
  /\ ((forall b, In b (blacklist st) -> b_token b <> token) ->
      authMiddleware_blacklist rt (Some token) now st
      = (fst (fst (verify_access rt token now st)), st,
         [mkQuery "Blacklist" "findOne"]))
  /\ (response_of (authMiddleware_blacklist rt (Some token) now st)
      = Ok (Responded revoked)
      <-> exists b, In b (blacklist st) /\ b_token b = token).
Proof.
  intros Ht.
  assert (Hhit : (exists b, In b (blacklist st) /\ b_token b = token) ->
                 authMiddleware_blacklist rt (Some token) now st
                 = (Ok (Responded revoked), st,
                    [mkQuery "Blacklist" "findOne"])).
  { intros (b & Hin & E). destruct token as [|c t]; [contradiction |].
    unfold authMiddleware_blacklist, try_catch, bind, read. simpl.
    destruct (find _ (blacklist st)) eqn:F; [reflexivity |].
    apply (find_none _ _ F) in Hin. simpl in Hin.
    rewrite E, jsstring_eqb_refl in Hin. discriminate. }
  assert (Hmiss : (forall b, In b (blacklist st) -> b_token b <> token) ->
                  authMiddleware_blacklist rt (Some token) now st
                  = (fst (fst (verify_access rt token now st)), st,
                     [mkQuery "Blacklist" "findOne"])).
  { intros Hno. destruct token as [|c t]; [contradiction |].
    unfold authMiddleware_blacklist, try_catch, bind, read, verify_access.
    simpl.
    destruct (find _ (blacklist st)) as [b|] eqn:F.
    - apply find_some in F as [Hin E]. apply jsstring_eqb_eq in E.
      now apply Hno in Hin.
    - destruct (jwt_verify rt _ _ _); reflexivity. }
  repeat split; auto.
  - intros R.
    destruct (find (fun b => jsstring_eqb (b_token b) token) (blacklist st))
      as [b|] eqn:F.
    + apply find_some in F as [Hin E]. apply jsstring_eqb_eq in E. eauto.
    + exfalso. rewrite Hmiss in R.
      * unfold verify_access, response_of in R. simpl in R.
        destruct (jwt_verify rt _ _ _); discriminate.
      * intros b Hin E. apply (find_none _ _ F) in Hin. simpl in Hin.
        rewrite E, jsstring_eqb_refl in Hin. discriminate.
  - intros H. now rewrite (Hhit H).
Qed.

(** What the other variant does with a token: the answer depends on the
    first user document alone. *)
Lemma authMiddleware_first_user (rt : Runtime) (token : jsstring) (now : Date)
  (st : Store) :
  token <> [] ->
  authMiddleware rt (Some token) now st
  = (match users st with
     | [] => Ok (Responded (mkResponse 500 (Message "Server error")))
     | user0 :: _ =>
         if truthy (u_refreshToken user0)
         then fst (fst (verify_access rt token now st))
         else Ok (Responded revoked)
     end, st, [mkQuery "User" "find"]).
Proof.
  intros Ht. destruct token as [|c t]; [contradiction |].
  unfold authMiddleware, try_catch, bind, read, verify_access. simpl.
  destruct (users st) as [|u0 us]; [reflexivity |].
  destruct (truthy (u_refreshToken u0)); simpl; [|reflexivity].
  destruct (jwt_verify rt _ _ _); reflexivity.
Qed.

(** C1, at the inputs where the variant that reads [user[0]] departs
    from it.  Bob has logged out and Alice, the first document, has not:
    Bob's token goes on to the signature check and passes.  With the
    two documents in the other order Alice's token is answered
    "revoked" although her identity holds a refresh token.  With no
    user document the answer is 500. *)
Theorem authMiddleware_ignores_token_owner :
  let rt := Demo.runtime 0 in
  let bobs := generateAccessToken rt Demo.bob 0%Z in
  let alices := generateAccessToken rt Demo.alice 0%Z in
  let q := [mkQuery "User" "find"] in
  (jwt_verify rt bobs (JWT_SECRET rt) 1%Z = Some (Demo.claims_of Demo.bob)
   /\ u_refreshToken Demo.bob = None
   /\ authMiddleware rt (Some bobs) 1%Z (mkStore [Demo.alice; Demo.bob] [] [] [])
      = (Ok (Next (Demo.claims_of Demo.bob)),
         mkStore [Demo.alice; Demo.bob] [] [] [], q))
  /\ (jwt_verify rt alices (JWT_SECRET rt) 1%Z
      = Some (Demo.claims_of Demo.alice)
      /\ u_refreshToken Demo.alice <> None
      /\ authMiddleware rt (Some alices) 1%Z
                        (mkStore [Demo.bob; Demo.alice] [] [] [])
         = (Ok (Responded revoked), mkStore [Demo.bob; Demo.alice] [] [] [], q))
  /\ authMiddleware rt (Some alices) 1%Z Demo.empty
     = (Ok (Responded (mkResponse 500 (Message "Server error"))),
        Demo.empty, q).
Proof.
  repeat split; try reflexivity. discriminate.
Qed.

(** Logging out puts the refresh token on the blacklist and clears it on
    the identity: the blacklist gate then refuses that token, and the
    refresh route no longer exchanges it. *)
Example post_logout_revokes :
  let rt := Demo.runtime 0 in
  let st := store_of (post_logout (Some Demo.alice_refresh) 9%Z Demo.store) in
  response_of (post_logout (Some Demo.alice_refresh) 9%Z Demo.store)
  = Ok (mkResponse 200 (Message "Logged out successfully"))
  /\ blacklist st = [mkBlacklisted Demo.alice_refresh 9%Z]
  /\ response_of (authMiddleware_blacklist rt (Some Demo.alice_refresh) 10%Z st)
     = Ok (Responded revoked)
  /\ response_of (post_refresh_token rt (Some Demo.alice_refresh) 10%Z st)
     = Ok (mkResponse 403 (Message "Invalid refresh token")).
Proof. repeat split; reflexivity. Qed.

(** A protected route runs its handler on the claims the gate decoded,
    after the gate's own query. *)
Lemma protected_next (gate : DB Gate) (handler : Claims -> DB Response)
  (st : Store) (decoded : Claims) (l : list Query) :
  gate st = (Ok (Next decoded), st, l) ->
  protected gate handler st
  = (response_of (handler decoded st), store_of (handler decoded st),
     l ++ log_of (handler decoded st)).
Proof.
  intros G. unfold protected, bind, response_of, store_of, log_of.
  rewrite G. now destruct (handler decoded st) as [[r st'] l'].
Qed.

Lemma protected_responded (gate : DB Gate) (handler : Claims -> DB Response)
  (st : Store) (r : Response) (l : list Query) :
  gate st = (Ok (Responded r), st, l) ->
  protected gate handler st = (Ok r, st, l).
Proof.
  intros G. unfold protected, bind, ret. rewrite G. now rewrite app_nil_r.
Qed.

(** ** The window of the day lookup *)





(** C3, at the inputs where the route departs from it.  On a server at
    UTC an event of the requester that starts at 23:59:59.999 of the day
    asked for is left out.  On a server five hours behind UTC the day
    searched is the one before: an event at local noon of the day asked
    for is left out and one at local noon of the previous day is
    returned. *)
Theorem get_events_day_departs :
  let alice := Demo.claims_of Demo.alice in
  let at_ (i : ObjectId) (t : Date) :=
    mkEvent i (js "Call") None t t None 1 [] in
  let q := [mkQuery "Event" "find.populate"] in
  let none :=
    mkResponse 404 (Message "No events found for the specified date") in
  (Demo.parse_date_only (js "2023-10-23") = Some 1698019200000%Z
   /\ (1698019200000 <= 1698105599999 < 1698019200000 + 86400000)%Z
   /\ get_events_day (Demo.runtime 0) alice (js "2023-10-23")
        (mkStore [Demo.alice] [] [at_ 100 1698105599999%Z] [])
      = (Ok none, mkStore [Demo.alice] [] [at_ 100 1698105599999%Z] [], q))
  /\ (get_events_day (Demo.runtime (-300)) alice (js "2023-10-23")
        (mkStore [Demo.alice] [] [at_ 101 1698080400000%Z] [])
      = (Ok none, mkStore [Demo.alice] [] [at_ 101 1698080400000%Z] [], q))
  /\ (exists pe,
        response_of (get_events_day (Demo.runtime (-300)) alice
                       (js "2023-10-23")
                       (mkStore [Demo.alice] [] [at_ 102 1697994000000%Z] []))
        = Ok (mkResponse 200 (EventList [pe]))
        /\ e_startTime (pe_event pe) = 1697994000000%Z).
Proof.
  repeat split; try reflexivity; try (vm_compute; congruence).
  eexists. split; reflexivity.
Qed.

(* ================================================================= *)
(** * Further properties of the routes *)

(** ** Lists under [update_first] *)

Lemma filter_update_first_none {A} (p q : A -> bool) (f : A -> A)
  (l : list A) (u : A) :
  find p l = Some u -> q u = true -> q (f u) = false ->
  (List.length (filter q l) <= 1)%nat ->
  filter q (update_first p f l) = [].
Proof.
  induction l as [|x l IH]; simpl; [discriminate |].
  destruct (p x) eqn:Px.
  - intros [= ->] Qu Qf Hlen. simpl. rewrite Qf.
    rewrite Qu in Hlen. simpl in Hlen.
    destruct (filter q l); [reflexivity | simpl in Hlen; lia].
  - intros F Qu Qf Hlen. simpl.
    destruct (q x) eqn:Qx.
    + exfalso. simpl in Hlen.
      apply find_some in F as [Hin _].
      assert (Hf : In u (filter q l)) by (apply filter_In; auto).
      destruct (filter q l); [contradiction | simpl in Hlen; lia].
    + now apply IH.
Qed.

Lemma find_filter_nil {A} (p : A -> bool) (l : list A) :
  filter p l = [] -> find p l = None.
Proof.
  induction l as [|x l IH]; simpl; [reflexivity |].
  destruct (p x); [discriminate | exact IH].
Qed.

Lemma update_first_none {A} (p : A -> bool) (f : A -> A) (l : list A) :
  find p l = None -> update_first p f l = l.
Proof.
  induction l as [|x l IH]; simpl; [reflexivity |].
  destruct (p x); [discriminate |]. intros H. now rewrite IH.
Qed.

Lemma set_users_same (st : Store) : set_users (fun l => l) st = st.
Proof. now destruct st. Qed.

Lemma set_events_same (st : Store) : set_events (fun l => l) st = st.
Proof. now destruct st. Qed.

(** ** The auth gate, continued *)

(** Either variant of the gate writes nothing, whatever it answers, and
    calls [next()] only with the payload [jwt.verify] decodes from the
    presented header under the access secret. *)
Theorem gate_passes_only_verified (rt : Runtime)
  (authorization : option jsstring) (now : Date) (st : Store) :
  store_of (authMiddleware rt authorization now st) = st
  /\ store_of (authMiddleware_blacklist rt authorization now st) = st
  /\ forall decoded,
       response_of (authMiddleware rt authorization now st)
       = Ok (Next decoded)
       \/ response_of (authMiddleware_blacklist rt authorization now st)
          = Ok (Next decoded) ->
       exists token,
         authorization = Some token /\ token <> []
         /\ jwt_verify rt token (JWT_SECRET rt) now = Some decoded.
Proof.
  split; [|split].
  - unfold authMiddleware, try_catch, bind, read, verify_access, store_of.
    destruct authorization as [[|c t]|]; simpl; try reflexivity.
    destruct (users st) as [|u0 us]; simpl; [reflexivity |].
    destruct (truthy (u_refreshToken u0)); simpl; [|reflexivity].
    destruct (jwt_verify rt _ _ _); reflexivity.
  - unfold authMiddleware_blacklist, try_catch, bind, read, verify_access,
      store_of.
    destruct authorization as [[|c t]|]; simpl; try reflexivity.
    destruct (find _ (blacklist st)); simpl; [reflexivity |].
    destruct (jwt_verify rt _ _ _); reflexivity.
  - intros decoded H.
    destruct authorization as [[|c t]|];
      try (destruct H as [H | H]; discriminate H).
    exists (c :: t). repeat split; [discriminate |].
    destruct H as [H | H]; revert H.
    + unfold authMiddleware, try_catch, bind, read, verify_access,
        response_of. simpl.
      destruct (users st) as [|u0 us]; simpl; [discriminate |].
      destruct (truthy (u_refreshToken u0)); simpl; [|discriminate].
      destruct (jwt_verify rt _ _ _); simpl; [|discriminate].
      now intros [= ->].
    + unfold authMiddleware_blacklist, try_catch, bind, read, verify_access,
        response_of. simpl.
      destruct (find _ (blacklist st)); simpl; [discriminate |].
      destruct (jwt_verify rt _ _ _); simpl; [|discriminate].
      now intros [= ->].
Qed.

Lemma gate_passes_only_verified_witness :
  store_of (authMiddleware (Demo.runtime 0) (Some (js "forged")) 1%Z
                           Demo.store) = Demo.store
  /\ exists token,
       Some (generateAccessToken (Demo.runtime 0) Demo.alice 0%Z) = Some token
       /\ token <> []
       /\ jwt_verify (Demo.runtime 0) token (JWT_SECRET (Demo.runtime 0)) 1%Z
          = Some (Demo.claims_of Demo.alice).
Proof.
  split.
  - apply (gate_passes_only_verified (Demo.runtime 0) (Some (js "forged"))
             1%Z Demo.store).
  - apply (gate_passes_only_verified (Demo.runtime 0)
             (Some (generateAccessToken (Demo.runtime 0) Demo.alice 0%Z))
             1%Z Demo.store).
    left. reflexivity.
Defined.

(** Case analysis on a scrutinee that is not itself a case analysis. *)
Ltac innermost_case :=
  match goal with
  | |- context [match ?x with _ => _ end] =>
      lazymatch x with
      | match _ with _ => _ end => fail
      | (match _ with _ => _ end) _ => fail
      | _ => destruct x
      end
  end.

(** No request takes an entry off the blacklist. *)
Lemma served_keeps_blacklist (rt : Runtime) (st st' : Store) :
  served rt st st' ->
  forall b, In b (blacklist st) -> In b (blacklist st').
Proof.
  intros H b Hb.
  destruct H;
    unfold authMiddleware, authMiddleware_blacklist, verify_access,
      post_register, post_register_unvalidated, register_new, post_login,
      post_refresh_token, post_refresh_token_unbound, post_logout,
      post_logout_by_email, get_users, get_users_search, post_calendar,
      get_calendars, put_calendar, delete_calendar, post_calendar_events,
      get_calendar_events, get_events_eventId, patch_event,
      delete_calendar_event, delete_calendar_event_record, get_events_day,
      User_findOne_email, User_findOne_refreshToken, User_insert, User_update,
      Calendar_insert, Calendar_findOneAndUpdate, Calendar_findOneAndDelete,
      Calendar_findById, Calendar_save, Event_save, Event_findByIdAndUpdate,
      Event_findByIdAndDelete, try_catch, bind, read, write, send, reply,
      throw, ret, store_of;
    repeat (simpl; innermost_case);
    simpl; try assumption;
    apply in_or_app; now left.
Qed.

Lemma later_keeps_blacklist (rt : Runtime) (st st' : Store) :
  later rt st st' ->
  forall b, In b (blacklist st) -> In b (blacklist st').
Proof.
  induction 1 as [st | st st' st'' _ IH Hs]; intros b Hb; [exact Hb |].
  apply (served_keeps_blacklist rt st' st'' Hs). now apply IH.
Qed.

(** A token that [POST /logout] was given is refused by the blacklist
    gate from then on, whoever presents it: right after the logout and
    after any number of further requests to any route. *)
Theorem post_logout_then_blacklist_gate (rt : Runtime) (token : jsstring)
  (now then_ : Date) (st st' : Store) :
  token <> [] ->
  later rt (store_of (post_logout (Some token) now st)) st' ->
  response_of (post_logout (Some token) now st)
  = Ok (mkResponse 200 (Message "Logged out successfully"))
  /\ authMiddleware_blacklist rt (Some token) then_ st'
     = (Ok (Responded revoked), st', [mkQuery "Blacklist" "findOne"]).
Proof.
  intros Ht Hl. destruct token as [|c t]; [contradiction |].
  split; [reflexivity |].
  assert (Hin : In (mkBlacklisted (c :: t) now) (blacklist st')).
  { apply (later_keeps_blacklist rt _ _ Hl). simpl.
    apply in_or_app. right. now left. }
  unfold authMiddleware_blacklist, try_catch, bind, read. simpl.
  destruct (find (fun b => jsstring_eqb (b_token b) (c :: t)) (blacklist st'))
    as [b|] eqn:F; [reflexivity |].
  apply (find_none _ _ F) in Hin. simpl in Hin.
  change (jschar_eqb c c && jsstring_eqb t t)
    with (jsstring_eqb (c :: t) (c :: t)) in Hin.
  rewrite jsstring_eqb_refl in Hin. discriminate.
Qed.

Lemma post_logout_then_blacklist_gate_witness :
  let st1 := store_of (post_logout (Some Demo.alice_refresh) 9%Z Demo.store) in
  let st2 := store_of (post_calendar (Demo.claims_of Demo.bob)
                                     (Some (js "Home")) 11 st1) in
  response_of (post_logout (Some Demo.alice_refresh) 9%Z Demo.store)
  = Ok (mkResponse 200 (Message "Logged out successfully"))
  /\ authMiddleware_blacklist (Demo.runtime 0) (Some Demo.alice_refresh) 10%Z
                              st2
     = (Ok (Responded revoked), st2, [mkQuery "Blacklist" "findOne"]).
Proof.
  intros st1 st2.
  apply (post_logout_then_blacklist_gate (Demo.runtime 0) Demo.alice_refresh
           9%Z 10%Z Demo.store st2).
  - discriminate.
  - apply later_next with (st' := st1).
    + apply later_now.
    + apply served_post_calendar.
Defined.

(** A refresh token held by at most one identity cannot be exchanged
    once [POST /logout] was given it. *)
Theorem post_logout_then_refresh (rt : Runtime) (token : jsstring)
  (now later : Date) (st : Store) :
  token <> [] ->
  (List.length (filter (holds token) (users st)) <= 1)%nat ->
  response_of (post_refresh_token rt (Some token) later
                 (store_of (post_logout (Some token) now st)))
  = Ok (mkResponse 403 (Message "Invalid refresh token")).
Proof.
  intros Ht Hlen. destruct token as [|c t]; [contradiction |].
  unfold post_refresh_token, post_logout, try_catch, bind,
    User_findOne_refreshToken, read, write, response_of, store_of.
  simpl.
  fold (holds (c :: t)).
  assert (F : find (holds (c :: t))
                   (update_first (holds (c :: t)) clear_refreshToken
                                 (users st)) = None).
  { destruct (find (holds (c :: t)) (users st)) as [u|] eqn:Fu.
    - apply find_filter_nil.
      apply (filter_update_first_none _ _ _ _ u Fu); [| reflexivity | exact Hlen].
      now apply find_some in Fu.
    - now rewrite update_first_none. }
  change (fun u : User =>
            match u_refreshToken u with
            | Some t' => jsstring_eqb t' (c :: t)
            | None => false
            end) with (holds (c :: t)).
  now rewrite F.
Qed.

Lemma post_logout_then_refresh_witness :
  response_of (post_refresh_token (Demo.runtime 0) (Some Demo.alice_refresh)
                 10%Z
                 (store_of (post_logout (Some Demo.alice_refresh) 9%Z
                                        Demo.store)))
  = Ok (mkResponse 403 (Message "Invalid refresh token")).
Proof.
  apply (post_logout_then_refresh (Demo.runtime 0) Demo.alice_refresh
           9%Z 10%Z Demo.store).
  - discriminate.
  - vm_compute. lia.
Defined.

(** In the variants that log out by email and gate on [user[0]]:
    once the first user document has logged out, every token, of
    whichever identity, is answered "revoked". *)
Theorem post_logout_by_email_first_user (rt : Runtime) (u0 : User)
  (rest : list User) (token : jsstring) (later : Date) (st : Store) :
  users st = u0 :: rest ->
  token <> [] ->
  response_of (post_logout_by_email (u_email u0) st)
  = Ok (mkResponse 200 (Message "Logout successful"))
  /\ response_of (authMiddleware rt (Some token) later
                    (store_of (post_logout_by_email (u_email u0) st)))
     = Ok (Responded revoked).
Proof.
  intros Hu Ht. destruct token as [|c t]; [contradiction |].
  split; [reflexivity |].
  unfold authMiddleware, post_logout_by_email, try_catch, bind, read, write,
    response_of, store_of. simpl.
  rewrite Hu. simpl. now rewrite jsstring_eqb_refl.
Qed.

Lemma post_logout_by_email_first_user_witness :
  response_of (post_logout_by_email (u_email Demo.alice) Demo.store)
  = Ok (mkResponse 200 (Message "Logout successful"))
  /\ response_of (authMiddleware (Demo.runtime 0)
                    (Some (generateAccessToken (Demo.runtime 0) Demo.alice 0%Z))
                    1%Z
                    (store_of (post_logout_by_email (u_email Demo.alice)
                                                    Demo.store)))
     = Ok (Responded revoked).
Proof.
  apply (post_logout_by_email_first_user (Demo.runtime 0) Demo.alice
           [Demo.bob]
           (generateAccessToken (Demo.runtime 0) Demo.alice 0%Z) 1%Z
           Demo.store).
  - reflexivity.
  - discriminate.
Defined.

(** ** Registration and login *)

Lemma find_email_none (email : jsstring) (us : list User) :
  find (fun u => jsstring_eqb (u_email u) email) us = None ->
  ~ In email (map u_email us).
Proof.
  intros F Hin. apply in_map_iff in Hin as (u & E & Hu).
  apply (find_none _ _ F) in Hu. simpl in Hu.
  rewrite E, jsstring_eqb_refl in Hu. discriminate.
Qed.

Lemma update_first_fresh_last {A} (p : A -> bool) (f : A -> A)
  (l : list A) (x : A) :
  (forall y, In y l -> p y = false) -> p x = true ->
  update_first p f (l ++ [x]) = l ++ [f x].
Proof.
  induction l as [|y l IH]; simpl; intros Hl Hx.
  - now rewrite Hx.
  - rewrite (Hl y (or_introl eq_refl)). f_equal. apply IH; [|exact Hx].
    intros z Hz. apply Hl. now right.
Qed.

(** What a registration that gets as far as the lookup leaves behind. *)
Lemma register_new_users (rt : Runtime) (newId : ObjectId)
  (email password : jsstring) (name : option jsstring) (now : Date)
  (st : Store) :
  (forall u, In u (users st) -> u_id u <> newId) ->
  users (store_of (register_new rt newId email password name now st))
  = users st
  \/ exists u, u_email u = email
       /\ users (store_of (register_new rt newId email password name now st))
          = users st ++ [u].
Proof.
  intros Hfresh. unfold register_new, bind, User_insert, User_update, write,
    send, ret, store_of.
  destruct (bcrypt_hash rt password 10) as [hash|]; simpl; [|now left].
  right. eexists. split; [|apply update_first_fresh_last].
  - reflexivity.
  - intros y Hy. apply N.eqb_neq. now apply Hfresh.
  - apply N.eqb_refl.
Qed.

Lemma NoDup_snoc {A} (l : list A) (x : A) :
  NoDup l -> ~ In x l -> NoDup (l ++ [x]).
Proof.
  induction l as [|y l IH]; simpl; intros Hnd Hx.
  - constructor; [easy | constructor].
  - inversion Hnd; subst. constructor.
    + intros Hin. apply in_app_or in Hin as [Hin | [<- | []]].
      * contradiction.
      * apply Hx. now left.
    + apply IH; [assumption |]. intros Hin. apply Hx. now right.
Qed.

Lemma register_new_keeps_emails_unique (rt : Runtime) (newId : ObjectId)
  (email password : jsstring) (name : option jsstring) (now : Date)
  (st : Store) :
  NoDup (map u_email (users st)) ->
  (forall u, In u (users st) -> u_id u <> newId) ->
  find (fun u => jsstring_eqb (u_email u) email) (users st) = None ->
  NoDup (map u_email
           (users (store_of (register_new rt newId email password name
                                          now st)))).
Proof.
  intros Hnd Hfresh F.
  destruct (register_new_users rt newId email password name now st Hfresh)
    as [E | (u & Eu & E)]; rewrite E; [exact Hnd |].
  rewrite map_app. simpl. rewrite Eu.
  apply NoDup_snoc; [exact Hnd | now apply find_email_none].
Qed.

(** Registration keeps emails unique: from a store where no two
    identities share an email, and with an id no identity has, either
    variant of the route leads to such a store again, whatever it
    answers. *)
Theorem post_register_keeps_emails_unique (rt : Runtime) (newId : ObjectId)
  (email password : jsstring) (name : option jsstring) (now : Date)
  (st : Store) :
  NoDup (map u_email (users st)) ->
  (forall u, In u (users st) -> u_id u <> newId) ->
  NoDup (map u_email
           (users (store_of (post_register rt newId email password name
                                           now st))))
  /\ NoDup (map u_email
              (users (store_of (post_register_unvalidated rt newId email
                                  password name now st)))).
Proof.
  intros Hnd Hfresh.
  pose proof (register_new_keeps_emails_unique rt newId email password name
                now st Hnd Hfresh) as K.
  split.
  - unfold post_register, try_catch, bind, User_findOne_email, read.
    destruct (validateUserCredentials email password); [exact Hnd |].
    destruct (find (fun u => jsstring_eqb (u_email u) email) (users st))
      as [u|] eqn:F; [exact Hnd |].
    specialize (K eq_refl). unfold store_of in *. simpl.
    destruct (register_new rt newId email password name now st)
      as [[[r|e] st'] l]; exact K.
  - unfold post_register_unvalidated, try_catch, bind, User_findOne_email,
      read.
    destruct (find (fun u => jsstring_eqb (u_email u) email) (users st))
      as [u|] eqn:F; [exact Hnd |].
    specialize (K eq_refl). unfold store_of in *. simpl.
    destruct (register_new rt newId email password name now st)
      as [[[r|e] st'] l]; exact K.
Qed.

Lemma post_register_keeps_emails_unique_witness :
  NoDup (map u_email
           (users (store_of (post_register (Demo.runtime 0) 3
                               (js "carol@example.com") (js "Passw0rd!")
                               None 7%Z Demo.store)))).
Proof.
  apply (post_register_keeps_emails_unique (Demo.runtime 0) 3
           (js "carol@example.com") (js "Passw0rd!") None 7%Z Demo.store).
  - simpl. constructor.
    + intros [H | []]. vm_compute in H. discriminate H.
    + constructor; [intros [] | constructor].
  - intros u [<- | [<- | []]]; simpl; discriminate.
Defined.

Lemma in_update_first {A} (p : A -> bool) (f : A -> A) (l : list A) (x : A) :
  find p l = Some x -> In (f x) (update_first p f l).
Proof.
  induction l as [|y l IH]; simpl; [discriminate |].
  destruct (p y).
  - intros [= ->]. now left.
  - intros F. right. now apply IH.
Qed.

Lemma post_register_existing_email_lookup (rt : Runtime) (newId : ObjectId)
  (email password : jsstring) (name : option jsstring) (now : Date)
  (st : Store) :
  (exists u, In u (users st) /\ u_email u = email) ->
  validateUserCredentials email password = None ->
  response_of (post_register rt newId email password name now st)
  = Ok (mkResponse 400 (Message "User already registered")).
Proof.
  intros H V. apply find_email_some in H as [u F].
  unfold post_register, try_catch, bind, User_findOne_email, read, response_of.
  now rewrite V, F.
Qed.

(** An email that has just been registered cannot be registered again:
    after a 201, the same credentials under any name and id are
    answered 400 "User already registered". *)
Theorem post_register_twice (rt : Runtime) (id1 id2 : ObjectId)
  (email password : jsstring) (name1 name2 : option jsstring)
  (now later : Date) (st : Store) (r : Response) :
  response_of (post_register rt id1 email password name1 now st) = Ok r ->
  status r = 201%nat ->
  response_of (post_register rt id2 email password name2 later
                 (store_of (post_register rt id1 email password name1 now st)))
  = Ok (mkResponse 400 (Message "User already registered")).
Proof.
  unfold post_register at 1 3, try_catch, bind, User_findOne_email, read,
    register_new, User_insert, User_update, write, send, ret, response_of,
    store_of.
  destruct (validateUserCredentials email password) eqn:V; simpl;
    [intros [= <-]; discriminate |].
  destruct (find _ (users st)) eqn:F; simpl; [intros [= <-]; discriminate |].
  destruct (bcrypt_hash rt password 10) as [hash|] eqn:Hh; simpl;
    [|intros [= <-]; discriminate].
  intros _ _.
  set (newUser := mkUser id1 email hash name1 (defaultRole rt) None).
  set (newUser' := mkUser id1 email hash name1 (defaultRole rt) (Some _)).
  set (st' := set_users _ (set_users _ st)).
  assert (Hex : exists u, In u (users st') /\ u_email u = email).
  { exists newUser'. split; [|reflexivity].
    unfold st'. simpl.
    destruct (find (fun x => u_id x =? u_id newUser')
                   (users st ++ [newUser])) as [x|] eqn:Fx.
    - apply (in_update_first _ (fun _ => newUser') _ x Fx).
    - assert (Hin : In newUser (users st ++ [newUser]))
        by (apply in_or_app; right; now left).
      apply (find_none _ _ Fx) in Hin. simpl in Hin.
      rewrite N.eqb_refl in Hin. discriminate. }
  exact (post_register_existing_email_lookup rt id2 email password name2
           later st' Hex V).
Qed.

Lemma post_register_twice_witness :
  response_of (post_register (Demo.runtime 0) 4 (js "carol@example.com")
                 (js "Passw0rd!") (Some (js "Carol")) 8%Z
                 (store_of (post_register (Demo.runtime 0) 3
                              (js "carol@example.com") (js "Passw0rd!")
                              None 7%Z Demo.store)))
  = Ok (mkResponse 400 (Message "User already registered")).
Proof.
  apply (post_register_twice (Demo.runtime 0) 3 4 (js "carol@example.com")
           (js "Passw0rd!") None (Some (js "Carol")) 7%Z 8%Z Demo.store
           (mkResponse 201
              (MessageTokens "Registration successful"
                 (generateAccessToken (Demo.runtime 0)
                    (mkUser 3 (js "carol@example.com")
                            (js "$2b$Passw0rd!") None (Some (js "user")) None)
                    7%Z)
                 (generateRefreshToken (Demo.runtime 0)
                    (mkUser 3 (js "carol@example.com")
                            (js "$2b$Passw0rd!") None (Some (js "user")) None)
                    7%Z))));
    reflexivity.
Defined.

(** Login answers 200 only for an email some identity has and a
    password [bcrypt.compare] accepts against that identity's hash, and
    then with tokens signed for that identity; every other answer is a
    400 that leaves the store as it was. *)
Theorem post_login_sound (rt : Runtime)
  (bcrypt_compare : jsstring -> jsstring -> bool)
  (email password : jsstring) (now : Date) (st : Store) (r : Response) :
  response_of (post_login rt bcrypt_compare email password now st) = Ok r ->
  (status r = 200%nat ->
   exists u, In u (users st) /\ u_email u = email
     /\ bcrypt_compare password (u_password u) = true
     /\ body r = MessageTokens "Login successful"
                   (generateAccessToken rt u now)
                   (generateRefreshToken rt u now))
  /\ (status r <> 200%nat ->
      status r = 400%nat
      /\ store_of (post_login rt bcrypt_compare email password now st) = st).
Proof.
  unfold post_login, try_catch, bind, User_findOne_email, read, User_update,
    write, send, ret, response_of, store_of.
  destruct (find _ (users st)) as [u|] eqn:F; simpl.
  - destruct (bcrypt_compare password (u_password u)) eqn:C; simpl.
    + intros [= <-]. split; [|intros H; now elim H].
      intros _. apply find_some in F as [Hin E].
      apply jsstring_eqb_eq in E. exists u. auto.
    + intros [= <-]. split; [discriminate | auto].
  - intros [= <-]. split; [discriminate | auto].
Qed.

Lemma post_login_sound_witness :
  exists u, In u (users Demo.store) /\ u_email u = js "alice@example.com"
    /\ jsstring_eqb (js "$2b$" ++ js "Passw0rd!") (u_password u) = true
    /\ MessageTokens "Login successful"
         (generateAccessToken (Demo.runtime 0) Demo.alice 3%Z)
         (generateRefreshToken (Demo.runtime 0) Demo.alice 3%Z)
       = MessageTokens "Login successful"
           (generateAccessToken (Demo.runtime 0) u 3%Z)
           (generateRefreshToken (Demo.runtime 0) u 3%Z).
Proof.
  apply (post_login_sound (Demo.runtime 0)
           (fun password hash => jsstring_eqb (js "$2b$" ++ password) hash)
           (js "alice@example.com") (js "Passw0rd!") 3%Z Demo.store
           (mkResponse 200
              (MessageTokens "Login successful"
                 (generateAccessToken (Demo.runtime 0) Demo.alice 3%Z)
                 (generateRefreshToken (Demo.runtime 0) Demo.alice 3%Z))));
    reflexivity.
Defined.

(** One session per identity: after a login the identity's stored
    refresh token is the new one, and the one it replaced, held by
    nobody else, can no longer be exchanged. *)
Theorem post_login_replaces_session (rt : Runtime)
  (bcrypt_compare : jsstring -> jsstring -> bool)
  (email password old : jsstring) (now later : Date) (st : Store) (u : User) :
  find (fun x => jsstring_eqb (u_email x) email) (users st) = Some u ->
  bcrypt_compare password (u_password u) = true ->
  find (fun x => u_id x =? u_id u) (users st) = Some u ->
  u_refreshToken u = Some old ->
  old <> [] ->
  old <> generateRefreshToken rt u now ->
  (List.length (filter (holds old) (users st)) <= 1)%nat ->
  let st' := store_of (post_login rt bcrypt_compare email password now st) in
  find (fun x => u_id x =? u_id u) (users st')
  = Some (set_refreshToken (generateRefreshToken rt u now) u)
  /\ response_of (post_refresh_token rt (Some old) later st')
     = Ok (mkResponse 403 (Message "Invalid refresh token")).
Proof.
  intros F C Fid Hold Hne Hdiff Hlen st'.
  assert (E : users st'
              = update_first (fun x => u_id x =? u_id u)
                  (fun _ => set_refreshToken (generateRefreshToken rt u now) u)
                  (users st)).
  { unfold st', post_login, try_catch, bind, User_findOne_email, read,
      User_update, write, send, ret, store_of.
    rewrite F. simpl. rewrite C. reflexivity. }
  split.
  - rewrite E.
    apply (find_update_first _
             (fun _ => set_refreshToken (generateRefreshToken rt u now) u)
             _ u Fid).
    simpl. apply N.eqb_refl.
  - assert (Fo : find (holds old) (users st') = None).
    { rewrite E. apply find_filter_nil.
      apply (filter_update_first_none _ _ _ _ u Fid); [| | exact Hlen].
      - unfold holds. rewrite Hold. apply jsstring_eqb_refl.
      - unfold holds. simpl.
        destruct (jsstring_eqb (generateRefreshToken rt u now) old) eqn:Eq;
          [|reflexivity].
        apply jsstring_eqb_eq in Eq. congruence. }
    destruct old as [|c t]; [contradiction |].
    unfold post_refresh_token, try_catch, bind, User_findOne_refreshToken,
      read, response_of. simpl.
    change (fun u0 : User =>
              match u_refreshToken u0 with
              | Some t' => jsstring_eqb t' (c :: t)
              | None => false
              end) with (holds (c :: t)).
    now rewrite Fo.
Qed.

Lemma post_login_replaces_session_witness :
  let cmp := fun password hash => jsstring_eqb (js "$2b$" ++ password) hash in
  let st' := store_of (post_login (Demo.runtime 0) cmp
                         (js "alice@example.com") (js "Passw0rd!") 3%Z
                         (mkStore [Demo.alice; Demo.bob] [] [] [])) in
  find (fun x => u_id x =? 1) (users st')
  = Some (set_refreshToken
            (generateRefreshToken (Demo.runtime 0) Demo.alice 3%Z) Demo.alice)
  /\ response_of (post_refresh_token (Demo.runtime 0)
                    (Some (js "session-one")) 4%Z
                    (store_of
                       (post_login (Demo.runtime 0) cmp
                          (js "alice@example.com") (js "Passw0rd!") 3%Z
                          (mkStore
                             [set_refreshToken (js "session-one") Demo.alice;
                              Demo.bob] [] [] []))))
     = Ok (mkResponse 403 (Message "Invalid refresh token")).
Proof.
  intros cmp st'. split; [reflexivity |].
  apply (post_login_replaces_session (Demo.runtime 0) cmp
           (js "alice@example.com") (js "Passw0rd!") (js "session-one")
           3%Z 4%Z
           (mkStore [set_refreshToken (js "session-one") Demo.alice; Demo.bob]
                    [] [] [])
           (set_refreshToken (js "session-one") Demo.alice));
    try reflexivity.
  - discriminate.
  - vm_compute. discriminate.
Defined.

(** ** The user listing and search *)

Lemma userDoc_no_secrets (u : User) :
  let d := select_exclude sensitive (userDoc u) in
  field "_id" d = Some (VId (u_id u))
  /\ field "email" d = Some (VStr (u_email u))
  /\ field "password" d = None /\ field "refreshToken" d = None.
Proof. destruct u as [i em pw [n|] [r|] t]; repeat split; reflexivity. Qed.

(** Whatever document [GET /users/search] sends is that of an identity
    with the email asked for, and has neither its password nor its
    refresh token; the route writes nothing. *)
Theorem get_users_search_safe (email : option jsstring) (st : Store)
  (r : Reply) (d : Doc) :
  response_of (get_users_search email st) = Ok r ->
  payload r = UserFound d ->
  code r = 200%nat
  /\ store_of (get_users_search email st) = st
  /\ field "password" d = None /\ field "refreshToken" d = None
  /\ exists u, In u (users st) /\ email = Some (u_email u)
       /\ field "_id" d = Some (VId (u_id u))
       /\ field "email" d = Some (VStr (u_email u)).
Proof.
  unfold get_users_search, try_catch, bind, read, reply, ret, response_of,
    store_of.
  destruct email as [[|c t]|]; simpl; try (intros [= <-]; discriminate).
  destruct (find _ (users st)) as [u|] eqn:F; simpl;
    [|intros [= <-]; discriminate].
  intros [= <-]. simpl. intros [= <-].
  apply find_some in F as [Hin E]. apply jsstring_eqb_eq in E.
  destruct (userDoc_no_secrets u) as (H1 & H2 & H3 & H4).
  repeat split; try assumption.
  exists u. rewrite E. auto.
Qed.

Lemma get_users_search_safe_witness :
  200%nat = 200%nat
  /\ store_of (get_users_search (Some (js "bob@example.com")) Demo.store)
     = Demo.store
  /\ field "password" (select_exclude sensitive (userDoc Demo.bob)) = None
  /\ field "refreshToken" (select_exclude sensitive (userDoc Demo.bob)) = None
  /\ exists u, In u (users Demo.store)
       /\ Some (js "bob@example.com") = Some (u_email u)
       /\ field "_id" (select_exclude sensitive (userDoc Demo.bob))
          = Some (VId (u_id u))
       /\ field "email" (select_exclude sensitive (userDoc Demo.bob))
          = Some (VStr (u_email u)).
Proof.
  apply (get_users_search_safe (Some (js "bob@example.com")) Demo.store
           (mkReply 200 (UserFound (select_exclude sensitive
                                      (userDoc Demo.bob))))
           (select_exclude sensitive (userDoc Demo.bob)));
    reflexivity.
Defined.

(** A search for an email nobody has is answered 404, and one without
    an email 400 before any query. *)
Lemma get_users_search_misses (email : jsstring) (st : Store) :
  get_users_search None st
  = (Ok (mkReply 400 (Plain (Message "Please provide an email to search."))),
     st, [])
  /\ (email <> [] ->
      (forall u, In u (users st) -> u_email u <> email) ->
      get_users_search (Some email) st
      = (Ok (mkReply 404 (Plain (Message "User not found."))), st,
         [mkQuery "User" "findOne.select"])).
Proof.
  split; [reflexivity |].
  intros Hne Hno. destruct email as [|c t]; [contradiction |].
  unfold get_users_search, try_catch, bind, read, reply, ret. simpl.
  destruct (find _ (users st)) as [u|] eqn:F; [|reflexivity].
  apply find_some in F as [Hin E]. apply jsstring_eqb_eq in E.
  now apply Hno in Hin.
Qed.

Lemma skipn_add {A} (a b : nat) (l : list A) :
  skipn (a + b) l = skipn b (skipn a l).
Proof.
  revert l; induction a as [|a IH]; intros l; simpl; [reflexivity |].
  destruct l as [|x l]; [now rewrite skipn_nil | apply IH].
Qed.

(** Cutting a list into consecutive chunks of [n] and gluing them back. *)
Lemma chunks_concat {A} (n m : nat) :
  forall l : list A,
    (List.length l <= m * n)%nat ->
    List.concat (map (fun k => firstn n (skipn (k * n) l)) (seq 0 m)) = l.
Proof.
  induction m as [|m IH]; intros l Hlen.
  - simpl in *. destruct l; [reflexivity | simpl in Hlen; lia].
  - simpl seq. rewrite <- seq_shift, map_cons, map_map.
    change (List.concat
              (firstn n (skipn (0 * n) l)
               :: map (fun k => firstn n (skipn (S k * n) l)) (seq 0 m)))
      with (firstn n l
            ++ List.concat
                 (map (fun k => firstn n (skipn (S k * n) l)) (seq 0 m))).
    rewrite (map_ext _ (fun k => firstn n (skipn (k * n) (skipn n l)))).
    + rewrite IH; [apply firstn_skipn |].
      rewrite length_skipn. simpl in Hlen. lia.
    + intros k. simpl. now rewrite skipn_add.
Qed.

Lemma ceil_div_covers (total n : nat) :
  (0 < n)%nat -> (total <= ceil_div total n * n)%nat.
Proof.
  intros Hn. unfold ceil_div.
  pose proof (Nat.mul_succ_div_gt (total + n - 1) n ltac:(lia)) as H.
  nia.
Qed.

Lemma page_users_get_users (page limit : positive) (st : Store) :
  page_users (get_users page limit st)
  = map (fun u => select_exclude sensitive (userDoc u))
        (firstn (Pos.to_nat limit)
           (skipn ((Pos.to_nat page - 1) * Pos.to_nat limit) (users st))).
Proof. reflexivity. Qed.

(** [GET /users] for a positive page and limit: every page is answered
    200 with the two counts, at most [limit] documents, none with a
    password or refresh token, and writes nothing; pages 1 to
    [totalPages], one after the other, are the whole collection in
    order, each identity once. *)
Theorem get_users_pages (limit : positive) (st : Store) :
  let total := List.length (users st) in
  let pages := ceil_div total (Pos.to_nat limit) in
  (forall page, exists us,
     get_users page limit st
     = (Ok (mkReply 200 (UsersPage page limit total pages us)), st,
        [mkQuery "User" "find.select.limit.skip";
         mkQuery "User" "countDocuments"])
     /\ (List.length us <= Pos.to_nat limit)%nat
     /\ forall d, In d us ->
          field "password" d = None /\ field "refreshToken" d = None)
  /\ List.concat (map (fun k => page_users (get_users (Pos.of_nat (S k)) limit st))
                 (seq 0 pages))
     = map (fun u => select_exclude sensitive (userDoc u)) (users st).
Proof.
  intros total pages. split.
  - intros page. eexists. split; [reflexivity | split].
    + rewrite length_map, length_firstn. lia.
    + intros d Hd. apply in_map_iff in Hd as (u & <- & _).
      destruct (userDoc_no_secrets u) as (_ & _ & H3 & H4). auto.
  - rewrite (map_ext _
               (fun k => map (fun u => select_exclude sensitive (userDoc u))
                           (firstn (Pos.to_nat limit)
                              (skipn (k * Pos.to_nat limit) (users st))))).
    + rewrite <- (map_map (fun k => firstn (Pos.to_nat limit)
                                      (skipn (k * Pos.to_nat limit) (users st)))
                          (map (fun u => select_exclude sensitive (userDoc u)))).
      rewrite <- concat_map. f_equal.
      apply chunks_concat. apply ceil_div_covers. lia.
    + intros k. rewrite page_users_get_users, Nat2Pos.id by lia.
      replace (S k - 1)%nat with k by lia. reflexivity.
Qed.

Example get_users_second_page :
  page_users (get_users 2 1 Demo.store)
  = [select_exclude sensitive (userDoc Demo.bob)]
  /\ page_users (get_users 3 1 Demo.store) = [].
Proof. split; reflexivity. Qed.

(** ** Calendars *)

Lemma NoDup_map_inj {A B} (k : A -> B) (l : list A) (a b : A) :
  NoDup (map k l) -> In a l -> In b l -> k a = k b -> a = b.
Proof.
  induction l as [|x l IH]; simpl; [easy |].
  intros Hnd Ha Hb E. inversion Hnd as [|? ? Hx Hl]; subst.
  destruct Ha as [-> | Ha], Hb as [-> | Hb]; auto.
  - exfalso. apply Hx. rewrite E. now apply in_map.
  - exfalso. apply Hx. rewrite <- E. now apply in_map.
Qed.

Lemma remove_first_split {A} (p : A -> bool) (l : list A) (x : A) :
  find p l = Some x ->
  exists l1 l2, l = l1 ++ x :: l2 /\ remove_first p l = l1 ++ l2.
Proof.
  induction l as [|y l IH]; simpl; [discriminate |].
  destruct (p y).
  - intros [= ->]. now exists [], l.
  - intros F. destruct (IH F) as (l1 & l2 & -> & ->).
    now exists (y :: l1), l2.
Qed.

Lemma find_preserved_update_first {A B} (p q : A -> bool) (f : A -> A)
  (g : A -> B) (l : list A) :
  (forall x, q (f x) = q x) -> (forall x, g (f x) = g x) ->
  option_map g (find q (update_first p f l)) = option_map g (find q l).
Proof.
  intros Hq Hg. induction l as [|x l IH]; simpl; [reflexivity |].
  destruct (p x); simpl.
  - rewrite Hq. destruct (q x); simpl; [now rewrite Hg | reflexivity].
  - destruct (q x); [reflexivity | exact IH].
Qed.

(** A calendar created with a name that is not blank is stored under
    the requester, trimmed and with no events; the requester's listing
    then has it, and the listing of any other identity is what it was. *)
Theorem post_calendar_then_list (user other : Claims) (name : jsstring)
  (newId : ObjectId) (st : Store) :
  trim name <> [] ->
  let r := post_calendar user (Some name) newId st in
  let c := mkCalendar newId (trim name) (cl_id user) [] in
  response_of r
  = Ok (mkReply 201 (MessageCalendar "Calendar created successfully" c))
  /\ (exists cs,
        response_of (get_calendars user (store_of r))
        = Ok (mkResponse 200 (CalendarList cs)) /\ In c cs)
  /\ (cl_id other <> cl_id user ->
      response_of (get_calendars other (store_of r))
      = response_of (get_calendars other st)).
Proof.
  intros Hne r c.
  assert (Er : r = (Ok (mkReply 201
                          (MessageCalendar "Calendar created successfully" c)),
                    set_calendars (fun cs => cs ++ [c]) st,
                    [mkQuery "Calendar" "save"])).
  { subst r c. unfold post_calendar, try_catch, bind, Calendar_insert,
      validate_calendar, reply, ret. simpl.
    destruct (trim name) as [|x t]; [contradiction | reflexivity]. }
  rewrite Er. clear Er r. repeat split.
  - eexists. split; [reflexivity |].
    apply filter_In. split.
    + simpl. apply in_or_app. right. now left.
    + apply N.eqb_refl.
  - intros Ho.
    unfold get_calendars, try_catch, bind, read, send, ret, response_of,
      store_of. simpl.
    rewrite filter_app. simpl.
    assert (E : (cl_id user =? cl_id other) = false)
      by (apply N.eqb_neq; congruence).
    now rewrite E, app_nil_r.
Qed.

Lemma post_calendar_then_list_witness :
  let r := post_calendar (Demo.claims_of Demo.bob) (Some (js " Home ")) 11
                         Demo.store in
  let c := mkCalendar 11 (js "Home") 2 [] in
  response_of r
  = Ok (mkReply 201 (MessageCalendar "Calendar created successfully" c))
  /\ (exists cs,
        response_of (get_calendars (Demo.claims_of Demo.bob) (store_of r))
        = Ok (mkResponse 200 (CalendarList cs)) /\ In c cs)
  /\ (cl_id (Demo.claims_of Demo.alice) <> cl_id (Demo.claims_of Demo.bob) ->
      response_of (get_calendars (Demo.claims_of Demo.alice) (store_of r))
      = response_of (get_calendars (Demo.claims_of Demo.alice) Demo.store)).
Proof.
  apply (post_calendar_then_list (Demo.claims_of Demo.bob)
           (Demo.claims_of Demo.alice) (js " Home ") 11 Demo.store).
  vm_compute. discriminate.
Defined.

(** A calendar without a name, or with a blank one, is refused by the
    schema: the route answers 500 and stores nothing. *)
Theorem post_calendar_blank_name (user : Claims) (name : option jsstring)
  (newId : ObjectId) (st : Store) :
  match name with Some n => trim n = [] | None => True end ->
  post_calendar user name newId st
  = (Ok (mkReply 500 (Plain (MessageError
                               "Server error during calendar creation"
                               ValidationError))),
     st, [mkQuery "Calendar" "save"]).
Proof.
  intros H. unfold post_calendar, try_catch, bind, Calendar_insert,
    validate_calendar, reply, ret.
  destruct name as [n|]; simpl; [rewrite H |]; reflexivity.
Qed.

Lemma post_calendar_blank_name_witness :
  post_calendar (Demo.claims_of Demo.bob) (Some (js "   ")) 11 Demo.store
  = (Ok (mkReply 500 (Plain (MessageError
                               "Server error during calendar creation"
                               ValidationError))),
     Demo.store, [mkQuery "Calendar" "save"]).
Proof.
  apply (post_calendar_blank_name (Demo.claims_of Demo.bob)
           (Some (js "   ")) 11 Demo.store).
  reflexivity.
Defined.

(** Renaming never moves a calendar: whoever asks and whatever the
    answer, every calendar id has the owner and the event list it had,
    and the events, users and blacklist are untouched. *)
Theorem put_calendar_keeps_owner_and_events (cast_name : jsstring -> jsstring)
  (user : Claims) (calendarId : ObjectId) (name : jsstring) (st : Store) :
  let st' := store_of (put_calendar cast_name user calendarId name st) in
  (forall i,
     option_map (fun c => (c_owner c, c_events c))
                (find (fun c => c_id c =? i) (calendars st'))
     = option_map (fun c => (c_owner c, c_events c))
                  (find (fun c => c_id c =? i) (calendars st)))
  /\ events st' = events st /\ users st' = users st
  /\ blacklist st' = blacklist st.
Proof.
  intros st'.
  assert (E : st' = set_calendars
                      (update_first
                         (fun c => (c_id c =? calendarId)
                                   && (c_owner c =? cl_id user))
                         (rename cast_name name)) st).
  { unfold st', put_calendar, try_catch, bind, Calendar_findOneAndUpdate,
      reply, ret, store_of. simpl.
    destruct (option_map _ _); reflexivity. }
  rewrite E. repeat split.
  intros i. simpl. apply find_preserved_update_first; reflexivity.
Qed.

(** Renaming a calendar the requester does not own (or that is not
    there) is answered 404 and changes nothing. *)
Theorem put_calendar_not_owner (cast_name : jsstring -> jsstring)
  (user : Claims) (calendarId : ObjectId) (name : jsstring) (st : Store) :
  (forall c, In c (calendars st) -> c_id c = calendarId ->
             c_owner c <> cl_id user) ->
  put_calendar cast_name user calendarId name st
  = (Ok (mkReply 404 (Plain (Message "Calendar not found"))), st,
     [mkQuery "Calendar" "findOneAndUpdate"]).
Proof.
  intros H.
  assert (F : find (fun c => (c_id c =? calendarId)
                             && (c_owner c =? cl_id user)) (calendars st)
              = None).
  { apply find_none_iff. intros c Hc.
    destruct (c_id c =? calendarId) eqn:Eid; [|reflexivity]. simpl.
    apply N.eqb_eq in Eid. apply N.eqb_neq. now apply H. }
  unfold put_calendar, try_catch, bind, Calendar_findOneAndUpdate, reply, ret.
  rewrite F. simpl. unfold set_calendars.
  rewrite (update_first_none _ _ _ F). now destruct st.
Qed.

Lemma put_calendar_not_owner_witness :
  put_calendar trim (Demo.claims_of Demo.bob) 10 (js "Mine") Demo.store
  = (Ok (mkReply 404 (Plain (Message "Calendar not found"))), Demo.store,
     [mkQuery "Calendar" "findOneAndUpdate"]).
Proof.
  apply (put_calendar_not_owner trim (Demo.claims_of Demo.bob) 10 (js "Mine")
           Demo.store).
  intros c [<- | []] _. simpl. discriminate.
Defined.

(** The owner's delete removes the calendar and nothing else: no
    calendar has its id afterwards, every other calendar is still
    stored, and the events it listed stay in the event collection. *)
Theorem delete_calendar_owner (user : Claims) (C : Calendar) (st : Store) :
  NoDup (map c_id (calendars st)) ->
  In C (calendars st) ->
  c_owner C = cl_id user ->
  let r := delete_calendar user (c_id C) st in
  response_of r = Ok (mkResponse 200 (Message "Calendar deleted successfully"))
  /\ find (fun c => c_id c =? c_id C) (calendars (store_of r)) = None
  /\ (forall c, In c (calendars st) -> c <> C -> In c (calendars (store_of r)))
  /\ events (store_of r) = events st.
Proof.
  intros Hnd Hin Ho r.
  set (hit := fun c => (c_id c =? c_id C) && (c_owner c =? cl_id user)).
  assert (F : find hit (calendars st) = Some C).
  { destruct (find hit (calendars st)) as [c|] eqn:F.
    - apply find_some in F as [Hc Hh]. unfold hit in Hh.
      apply andb_true_iff in Hh as [Hid _]. apply N.eqb_eq in Hid.
      f_equal. apply (NoDup_map_inj c_id _ c C Hnd Hc Hin Hid).
    - apply (find_none _ _ F) in Hin. unfold hit in Hin.
      rewrite N.eqb_refl, Ho, N.eqb_refl in Hin. discriminate. }
  destruct (remove_first_split hit _ C F) as (l1 & l2 & El & Er).
  assert (E : r = (Ok (mkResponse 200
                         (Message "Calendar deleted successfully")),
                   set_calendars (remove_first hit) st,
                   [mkQuery "Calendar" "findOneAndDelete"])).
  { subst r. unfold delete_calendar, try_catch, bind,
      Calendar_findOneAndDelete, send, ret. fold hit. now rewrite F. }
  rewrite E. clear E r. unfold response_of, store_of. simpl.
  rewrite Er. rewrite El in Hnd. rewrite map_app in Hnd. simpl in Hnd.
  apply NoDup_remove_2 in Hnd.
  repeat split.
  - apply find_none_iff. intros c Hc. apply N.eqb_neq. intros Eid.
    apply Hnd. rewrite <- Eid, <- map_app. now apply in_map.
  - intros c Hc Hne. rewrite El in Hc.
    apply in_app_or in Hc as [Hc | [Hc | Hc]].
    + apply in_or_app. now left.
    + congruence.
    + apply in_or_app. now right.
Qed.

Lemma delete_calendar_owner_witness :
  let r := delete_calendar (Demo.claims_of Demo.alice) 10 Demo.store in
  response_of r = Ok (mkResponse 200 (Message "Calendar deleted successfully"))
  /\ find (fun c => c_id c =? 10) (calendars (store_of r)) = None
  /\ (forall c, In c (calendars Demo.store) -> c <> Demo.work ->
                In c (calendars (store_of r)))
  /\ events (store_of r) = [Demo.standup].
Proof.
  apply (delete_calendar_owner (Demo.claims_of Demo.alice) Demo.work
           Demo.store).
  - simpl. constructor; [intros [] | constructor].
  - now left.
  - reflexivity.
Defined.

(** ** Events *)

Lemma populate_events_app (es : list Event) (a b : list ObjectId) :
  populate_events es (a ++ b) = populate_events es a ++ populate_events es b.
Proof.
  induction a as [|i a IH]; simpl; [reflexivity |].
  destruct (find _ es); simpl; now rewrite IH.
Qed.

Lemma find_app_old {A} (p : A -> bool) (l : list A) (x : A) :
  p x = false -> find p (l ++ [x]) = find p l.
Proof.
  intros Hx. induction l as [|y l IH]; simpl; [now rewrite Hx |].
  destruct (p y); [reflexivity | exact IH].
Qed.

Lemma populate_events_fresh (es : list Event) (ev : Event)
  (ids : list ObjectId) :
  ~ In (e_id ev) ids ->
  populate_events (es ++ [ev]) ids = populate_events es ids.
Proof.
  induction ids as [|i ids IH]; simpl; [reflexivity |].
  intros H. rewrite find_app_old.
  - destruct (find _ es); rewrite IH; auto.
  - apply N.eqb_neq. intros E. apply H. now left.
Qed.

Lemma populate_events_pull (es : list Event) (i : ObjectId)
  (ids : list ObjectId) :
  populate_events es (filter (fun x => negb (x =? i)) ids)
  = filter (fun e => negb (e_id e =? i)) (populate_events es ids).
Proof.
  induction ids as [|j ids IH]; simpl; [reflexivity |].
  destruct (j =? i) eqn:E; simpl.
  - apply N.eqb_eq in E. subst j.
    destruct (find (fun e => e_id e =? i) es) as [e|] eqn:F; [|exact IH].
    apply find_some in F as [_ Fe]. simpl. now rewrite Fe.
  - destruct (find (fun e => e_id e =? j) es) as [e|] eqn:F; [|exact IH].
    apply find_some in F as [_ Fe]. apply N.eqb_eq in Fe. simpl.
    rewrite Fe, E. simpl. now rewrite IH.
Qed.

(** An event without a title (or with a blank one), a start or an end
    is refused by the schema before anything is written: the route
    answers 500, and neither the event nor a reference to it is stored. *)
Theorem post_calendar_events_invalid (user : Claims) (calendarId : ObjectId)
  (b : EventInput) (newId : ObjectId) (st : Store) (c : Calendar) :
  find (fun x => c_id x =? calendarId) (calendars st) = Some c ->
  c_owner c = cl_id user ->
  match in_title b with Some t => trim t = [] | None => True end
  \/ in_startTime b = None \/ in_endTime b = None ->
  post_calendar_events user calendarId b newId st
  = (Ok (mkResponse 500 (MessageError "Server error during event creation"
                                      ValidationError)),
     st, [mkQuery "Calendar" "findById"; mkQuery "Event" "save"]).
Proof.
  intros F Ho H.
  assert (Eo : (c_owner c =? cl_id user) = true) by now apply N.eqb_eq.
  assert (V : validate_event newId (cl_id user) (cast_event b) = None).
  { unfold validate_event, cast_event. simpl.
    destruct H as [H | [H | H]].
    - destruct (in_title b) as [t|]; simpl; [rewrite H |]; reflexivity.
    - rewrite H. destruct (option_map trim (in_title b)) as [[|x t]|];
        reflexivity.
    - rewrite H. destruct (option_map trim (in_title b)) as [[|x t]|];
        try reflexivity.
      destruct (in_startTime b); reflexivity. }
  unfold post_calendar_events, try_catch, bind, Calendar_findById, read,
    Event_save, send, ret.
  rewrite F, Eo. simpl. now rewrite V.
Qed.

Lemma post_calendar_events_invalid_witness :
  post_calendar_events (Demo.claims_of Demo.alice) 10
    (mkEventInput (Some (js "  ")) None (Some 5%Z) (Some 6%Z) None []) 101
    Demo.store
  = (Ok (mkResponse 500 (MessageError "Server error during event creation"
                                      ValidationError)),
     Demo.store, [mkQuery "Calendar" "findById"; mkQuery "Event" "save"]).
Proof.
  apply (post_calendar_events_invalid (Demo.claims_of Demo.alice) 10
           (mkEventInput (Some (js "  ")) None (Some 5%Z) (Some 6%Z) None [])
           101 Demo.store Demo.work); try reflexivity.
  left. reflexivity.
Defined.

(** An event that was created shows up last in the listing of its
    calendar, after the events the calendar listed before; the id is one
    no stored event has and no calendar of that id lists. *)
Theorem post_calendar_events_then_list (user : Claims)
  (calendarId newId : ObjectId) (b : EventInput) (st : Store)
  (c : Calendar) (ev : Event) :
  find (fun x => c_id x =? calendarId) (calendars st) = Some c ->
  (forall e, In e (events st) -> e_id e <> newId) ->
  ~ In newId (c_events c) ->
  response_of (post_calendar_events user calendarId b newId st)
  = Ok (mkResponse 201 (MessageEvent "Event created successfully" ev)) ->
  response_of (get_calendar_events user calendarId st)
  = Ok (mkReply 200 (Events (populate_events (events st) (c_events c))))
  /\ response_of (get_calendar_events user calendarId
                    (store_of (post_calendar_events user calendarId b newId
                                                    st)))
     = Ok (mkReply 200
             (Events (populate_events (events st) (c_events c) ++ [ev]))).
Proof.
  intros F Hfresh Hnew.
  apply find_some in F as HF. destruct HF as [_ Hid].
  apply N.eqb_eq in Hid. subst calendarId.
  unfold post_calendar_events, get_calendar_events, try_catch, bind,
    Calendar_findById, Calendar_save, Event_save, read, write, send, reply,
    ret, response_of, store_of.
  rewrite F. simpl.
  destruct (c_owner c =? cl_id user) eqn:Eo; simpl;
    [|intros [= H]; discriminate H].
  destruct (validate_event newId (cl_id user) (cast_event b)) as [e|] eqn:V;
    simpl; [|intros [= H]; discriminate H].
  destruct (c_name c) as [|n0 n] eqn:Hn; simpl; [intros [= H]; discriminate H |].
  intros [= ->]. split; [reflexivity |].
  assert (Eid : e_id ev = newId).
  { unfold validate_event in V.
    destruct (in_title (cast_event b)) as [[|x t]|]; try discriminate.
    destruct (in_startTime (cast_event b)); try discriminate.
    destruct (in_endTime (cast_event b)); try discriminate.
    now injection V as <-. }
  rewrite Eid.
  rewrite (find_update_first (fun x => c_id x =? c_id c)
             (fun _ => push_event newId c) _ c F) by apply N.eqb_refl.
  simpl. rewrite Eo. simpl.
  rewrite populate_events_app, populate_events_fresh by now rewrite Eid.
  simpl. rewrite find_app_fresh.
  - reflexivity.
  - intros y Hy. apply N.eqb_neq. now apply Hfresh.
  - rewrite Eid. apply N.eqb_refl.
Qed.

Lemma post_calendar_events_then_list_witness :
  response_of (get_calendar_events (Demo.claims_of Demo.alice) 10 Demo.store)
  = Ok (mkReply 200 (Events [Demo.standup]))
  /\ response_of (get_calendar_events (Demo.claims_of Demo.alice) 10
                    (store_of (post_calendar_events
                                 (Demo.claims_of Demo.alice) 10 Demo.review
                                 101 Demo.store)))
     = Ok (mkReply 200
             (Events ([Demo.standup]
                      ++ [mkEvent 101 (js "Review") None 1698055200000%Z
                                  1698058800000%Z None 1 []]))).
Proof.
  apply (post_calendar_events_then_list (Demo.claims_of Demo.alice) 10 101
           Demo.review Demo.store Demo.work
           (mkEvent 101 (js "Review") None 1698055200000%Z 1698058800000%Z
                    None 1 [])).
  - reflexivity.
  - intros e [<- | []]. simpl. discriminate.
  - simpl. intros [H | []]. discriminate H.
  - reflexivity.
Defined.

(** Taking an event off a calendar that passes its schema (in the
    variant that checks the list) leaves the event itself stored: the
    removal is answered 200, the event reads by id as before, and the
    calendar's listing is what it was without that event. *)
Theorem delete_calendar_event_keeps_record (user : Claims)
  (calendarId eventId : ObjectId) (st : Store) (c : Calendar) :
  find (fun x => c_id x =? calendarId) (calendars st) = Some c ->
  c_owner c = cl_id user ->
  c_name c <> [] ->
  In eventId (c_events c) ->
  let st' := store_of (delete_calendar_event user calendarId eventId st) in
  response_of (delete_calendar_event user calendarId eventId st)
  = Ok (mkResponse 200 (Message "Event removed from calendar successfully"))
  /\ response_of (get_events_eventId eventId st')
     = response_of (get_events_eventId eventId st)
  /\ response_of (get_calendar_events user calendarId st')
     = Ok (mkReply 200
             (Events (filter (fun e => negb (e_id e =? eventId))
                             (populate_events (events st) (c_events c))))).
Proof.
  intros F Ho Hname Hin st'.
  assert (Eo : (c_owner c =? cl_id user) = true) by now apply N.eqb_eq.
  assert (Hinc : includes (c_events c) eventId = true)
    by now apply includes_In.
  assert (E : st' = set_calendars
                      (update_first (fun x => c_id x =? c_id c)
                                    (fun _ => pull_event eventId c)) st).
  { unfold st', delete_calendar_event, try_catch, bind, Calendar_findById,
      Calendar_save, read, write, send, ret, store_of.
    rewrite F, Eo. simpl. rewrite Hinc. simpl.
    destruct (c_name c); [contradiction | reflexivity]. }
  split.
  { unfold delete_calendar_event, try_catch, bind, Calendar_findById,
      Calendar_save, read, write, send, ret, response_of.
    rewrite F, Eo. simpl. rewrite Hinc. simpl.
    destruct (c_name c); [contradiction | reflexivity]. }
  rewrite E. split.
  { unfold get_events_eventId, try_catch, bind, read, send, ret,
      response_of. simpl.
    destruct (find (fun e => e_id e =? eventId) (events st)); reflexivity. }
  apply find_some in F as HF. destruct HF as [_ Hid].
  apply N.eqb_eq in Hid. subst calendarId.
  unfold get_calendar_events, try_catch, bind, read, reply, ret, response_of.
  simpl.
  rewrite (find_update_first (fun x => c_id x =? c_id c)
             (fun _ => pull_event eventId c) _ c F) by apply N.eqb_refl.
  simpl. rewrite Eo. simpl. now rewrite populate_events_pull.
Qed.

Lemma delete_calendar_event_keeps_record_witness :
  let st' := store_of (delete_calendar_event (Demo.claims_of Demo.alice)
                                             10 100 Demo.store) in
  response_of (get_events_eventId 100 st')
  = response_of (get_events_eventId 100 Demo.store)
  /\ response_of (get_calendar_events (Demo.claims_of Demo.alice) 10 st')
     = Ok (mkReply 200
             (Events (filter (fun e => negb (e_id e =? 100))
                             (populate_events (events Demo.store)
                                              (c_events Demo.work))))).
Proof.
  apply (delete_calendar_event_keeps_record (Demo.claims_of Demo.alice)
           10 100 Demo.store Demo.work); try reflexivity.
  - simpl. discriminate.
  - now left.
Defined.

(** In the variant that deletes the event document, owning any one
    calendar is enough to delete any event: whoever organizes it and
    whether or not that calendar lists it, no stored event has the id
    afterwards.  The answer is 200 when the requester's calendar passes
    its schema; when its stored name is empty the save that follows the
    deletion is refused and the answer is 500, the event being gone all
    the same. *)
Theorem delete_calendar_event_record_any_event (user : Claims)
  (calendarId eventId : ObjectId) (st : Store) (c : Calendar) (e : Event) :
  find (fun x => c_id x =? calendarId) (calendars st) = Some c ->
  c_owner c = cl_id user ->
  NoDup (map e_id (events st)) ->
  In e (events st) ->
  e_id e = eventId ->
  let r := delete_calendar_event_record user calendarId eventId st in
  find (fun x => e_id x =? eventId) (events (store_of r)) = None
  /\ users (store_of r) = users st
  /\ (c_name c <> [] ->
      response_of r
      = Ok (mkResponse 200 (Message "Event deleted successfully")))
  /\ (c_name c = [] ->
      response_of r
      = Ok (mkResponse 500 (MessageError "Server error during event deletion"
                                         ValidationError))).
Proof.
  intros F Ho Hnd Hin Hid r.
  assert (Eo : (c_owner c =? cl_id user) = true) by now apply N.eqb_eq.
  set (hit := fun x => e_id x =? eventId).
  assert (Fe : exists e', find hit (events st) = Some e').
  { destruct (find hit (events st)) as [e'|] eqn:Fe; [eauto |].
    apply (find_none _ _ Fe) in Hin. unfold hit in Hin.
    rewrite Hid, N.eqb_refl in Hin. discriminate. }
  destruct Fe as [e' Fe].
  destruct (remove_first_split hit _ e' Fe) as (l1 & l2 & El & Er).
  assert (Gone : find hit (remove_first hit (events st)) = None).
  { rewrite Er. rewrite El in Hnd. rewrite map_app in Hnd. simpl in Hnd.
    apply NoDup_remove_2 in Hnd.
    apply find_some in Fe as [_ He']. unfold hit in He'.
    apply N.eqb_eq in He'.
    apply find_none_iff. intros x Hx. apply N.eqb_neq. intros Ex.
    apply Hnd. rewrite He', <- Ex, <- map_app. now apply in_map. }
  assert (E : r = match c_name c with
                  | [] =>
                      (Ok (mkResponse 500
                             (MessageError "Server error during event deletion"
                                           ValidationError)),
                       set_events (remove_first hit) st,
                       [mkQuery "Calendar" "findById";
                        mkQuery "Event" "findByIdAndDelete";
                        mkQuery "Calendar" "save"])
                  | _ :: _ =>
                      (Ok (mkResponse 200
                             (Message "Event deleted successfully")),
                       set_calendars
                         (update_first (fun x => c_id x =? c_id c)
                                       (fun _ => pull_event (e_id e') c))
                         (set_events (remove_first hit) st),
                       [mkQuery "Calendar" "findById";
                        mkQuery "Event" "findByIdAndDelete";
                        mkQuery "Calendar" "save"])
                  end).
  { subst r. unfold delete_calendar_event_record, try_catch, bind,
      Calendar_findById, Event_findByIdAndDelete, Calendar_save, read, write,
      send, ret.
    rewrite F, Eo. simpl. fold hit. rewrite Fe. simpl.
    destruct (c_name c); reflexivity. }
  rewrite E. clear E r.
  destruct (c_name c) as [|n0 n]; unfold response_of, store_of; simpl;
    (split; [exact Gone |]); (split; [reflexivity |]); split;
    intros H; try reflexivity; try discriminate H; now elim H.
Qed.

Lemma delete_calendar_event_record_any_event_witness :
  let st := mkStore [Demo.alice; Demo.bob]
                    [Demo.work; mkCalendar 11 (js "Home") 2 []]
                    [Demo.standup] [] in
  let r := delete_calendar_event_record (Demo.claims_of Demo.bob) 11 100 st in
  e_organizer Demo.standup <> cl_id (Demo.claims_of Demo.bob)
  /\ find (fun x => e_id x =? 100) (events (store_of r)) = None
  /\ users (store_of r) = [Demo.alice; Demo.bob]
  /\ (js "Home" <> [] ->
      response_of r
      = Ok (mkResponse 200 (Message "Event deleted successfully")))
  /\ (js "Home" = [] ->
      response_of r
      = Ok (mkResponse 500 (MessageError "Server error during event deletion"
                                         ValidationError))).
Proof.
  intros st r. split; [simpl; discriminate |].
  apply (delete_calendar_event_record_any_event (Demo.claims_of Demo.bob)
           11 100 st (mkCalendar 11 (js "Home") 2 []) Demo.standup);
    try reflexivity.
  - simpl. constructor; [intros [] | constructor].
  - now left.
Defined.

(** Only the organizer updates an event: for anyone else, and for an id
    no event has, [PATCH] is answered 403 after the one lookup, whatever
    the body, and nothing is changed. *)
Theorem patch_event_not_organizer (Patch : Type)
  (apply_set : Patch -> Event -> Result Event) (user : Claims)
  (eventId : ObjectId) (body : Patch) (st : Store) :
  (forall e, In e (events st) -> e_id e = eventId ->
             e_organizer e <> cl_id user) ->
  patch_event apply_set user eventId body st
  = (Ok (mkReply 403 organizer_only), st, [mkQuery "Event" "findById"]).
Proof.
  intros H. unfold patch_event, try_catch, bind, read.
  destruct (find _ (events st)) as [e|] eqn:F; [|reflexivity].
  apply find_some in F as [Hin Hid]. apply N.eqb_eq in Hid.
  apply (H e Hin) in Hid. apply N.eqb_neq in Hid. now rewrite Hid.
Qed.

Lemma patch_event_not_organizer_witness :
  patch_event (fun (title : jsstring) (e : Event) =>
                 Ok (mkEvent (e_id e) title (e_description e) (e_startTime e)
                             (e_endTime e) (e_location e) (e_organizer e)
                             (e_attendees e)))
              (Demo.claims_of Demo.bob) 100 (js "Mine now") Demo.store
  = (Ok (mkReply 403 organizer_only), Demo.store,
     [mkQuery "Event" "findById"]).
Proof.
  apply patch_event_not_organizer.
  intros e [<- | []] _. simpl. discriminate.
Defined.

(** An update the driver rejects changes nothing, and one it accepts
    replaces the organizer's event by what the driver made of it. *)
Theorem patch_event_organizer (Patch : Type)
  (apply_set : Patch -> Event -> Result Event) (user : Claims)
  (eventId : ObjectId) (body : Patch) (st : Store) (e : Event) :
  find (fun x => e_id x =? eventId) (events st) = Some e ->
  e_organizer e = cl_id user ->
  let q := [mkQuery "Event" "findById"; mkQuery "Event" "findByIdAndUpdate"] in
  patch_event apply_set user eventId body st
  = match apply_set body e with
    | Ok e' =>
        (Ok (mkReply 200 (MessageUpdated "Event updated successfully"
                                         (Some e'))),
         set_events (update_first (fun x => e_id x =? eventId) (fun _ => e'))
                    st, q)
    | Throw err =>
        (Ok (mkReply 500 (Plain (MessageError
                                   "Server error during event update" err))),
         st, q)
    end.
Proof.
  intros F Ho q.
  assert (Eo : (e_organizer e =? cl_id user) = true) by now apply N.eqb_eq.
  unfold patch_event, try_catch, bind, read, Event_findByIdAndUpdate, reply,
    ret.
  rewrite F, Eo. simpl. rewrite F.
  destruct (apply_set body e); reflexivity.
Qed.

Lemma patch_event_organizer_witness :
  patch_event (fun (title : jsstring) (e : Event) =>
                 match title with
                 | [] => Throw ValidationError
                 | _ => Ok e
                 end)
              (Demo.claims_of Demo.alice) 100 [] Demo.store
  = (Ok (mkReply 500 (Plain (MessageError "Server error during event update"
                                          ValidationError))),
     Demo.store,
     [mkQuery "Event" "findById"; mkQuery "Event" "findByIdAndUpdate"]).
Proof.
  apply (patch_event_organizer jsstring
           (fun (title : jsstring) (e : Event) =>
              match title with
              | [] => Throw ValidationError
              | _ => Ok e
              end)
           (Demo.claims_of Demo.alice) 100 [] Demo.store Demo.standup);
    reflexivity.
Defined.

Lemma populate_users_no_secrets (us : list User) (ids : list ObjectId)
  (d : Doc) :
  In d (populate_users us ids) ->
  field "password" d = None /\ field "refreshToken" d = None.
Proof.
  induction ids as [|i ids IH]; simpl; [easy |].
  destruct (populate_user us i) as [d'|] eqn:P; [|exact IH].
  intros [<- | H]; [|now apply IH].
  now destruct (populate_user_no_secrets _ _ _ P) as (_ & H2 & H3).
Qed.

(** Reading an event by id asks nothing about the requester: whatever
    stored event has the id is sent, with the organizer and the
    attendees expanded to documents that have neither password nor
    refresh token; nothing is written. *)
Theorem get_events_eventId_safe (eventId : ObjectId) (st : Store)
  (r : Response) (pe : PopulatedEvent) :
  response_of (get_events_eventId eventId st) = Ok r ->
  body r = EventDetail pe ->
  status r = 200%nat
  /\ In (pe_event pe) (events st) /\ e_id (pe_event pe) = eventId
  /\ (forall d, pe_organizer pe = Some d \/ In d (pe_attendees pe) ->
                field "password" d = None /\ field "refreshToken" d = None)
  /\ store_of (get_events_eventId eventId st) = st.
Proof.
  unfold get_events_eventId, try_catch, bind, read, send, ret, response_of,
    store_of.
  destruct (find _ (events st)) as [e|] eqn:F; simpl;
    [|intros [= <-]; discriminate].
  intros [= <-]. simpl. intros [= <-].
  apply find_some in F as [Hin Hid]. apply N.eqb_eq in Hid.
  repeat split; try assumption.
  - destruct H as [H | H].
    + now destruct (populate_user_no_secrets _ _ _ H) as (_ & H2 & _).
    + now destruct (populate_users_no_secrets _ _ _ H).
  - destruct H as [H | H].
    + now destruct (populate_user_no_secrets _ _ _ H) as (_ & _ & H3).
    + now destruct (populate_users_no_secrets _ _ _ H).
Qed.

Lemma get_events_eventId_safe_witness :
  200%nat = 200%nat
  /\ In Demo.standup (events Demo.store) /\ e_id Demo.standup = 100
  /\ (forall d,
        pe_organizer (populate_event (users Demo.store) Demo.standup) = Some d
        \/ In d (pe_attendees (populate_event (users Demo.store)
                                              Demo.standup)) ->
        field "password" d = None /\ field "refreshToken" d = None)
  /\ store_of (get_events_eventId 100 Demo.store) = Demo.store.
Proof.
  apply (get_events_eventId_safe 100 Demo.store
           (mkResponse 200
              (EventDetail (populate_event (users Demo.store) Demo.standup)))
           (populate_event (users Demo.store) Demo.standup));
    reflexivity.
Defined.



Lemma authMiddleware_blacklist_revoked_witness :
  let st := mkStore [Demo.alice] [] [] [mkBlacklisted (js "stolen") 4%Z] in
  authMiddleware_blacklist (Demo.runtime 0) (Some (js "stolen")) 5%Z st
  = (Ok (Responded revoked), st, [mkQuery "Blacklist" "findOne"]).
Proof.
  intros st.
  destruct (authMiddleware_blacklist_revoked (Demo.runtime 0) (js "stolen")
              5%Z st) as (H & _ & _).
  - discriminate.
  - apply H. exists (mkBlacklisted (js "stolen") 4%Z).
    split; [now left | reflexivity].
Defined.

(** A 201 from the register route with the credential check means the
    credentials satisfy all six rules, no identity had the email, and
    the identity stored for it holds the refresh token that was sent;
    the id is one no identity has. *)
Theorem post_register_created (rt : Runtime) (newId : ObjectId)
  (email password : jsstring) (name : option jsstring) (now : Date)
  (st : Store) (r : Response) :
  (forall u, In u (users st) -> u_id u <> newId) ->
  response_of (post_register rt newId email password name now st) = Ok r ->
  status r = 201%nat ->
  (forall rule, In rule (credential_rules email password) -> fst rule = true)
  /\ ~ In email (map u_email (users st))
  /\ exists hash u,
       bcrypt_hash rt password 10 = Some hash
       /\ u = mkUser newId email hash name (defaultRole rt)
                     (Some (generateRefreshToken rt
                              (mkUser newId email hash name (defaultRole rt)
                                      None) now))
       /\ users (store_of (post_register rt newId email password name now st))
          = users st ++ [u]
       /\ body r = MessageTokens "Registration successful"
                     (generateAccessToken rt
                        (mkUser newId email hash name (defaultRole rt) None)
                        now)
                     (generateRefreshToken rt
                        (mkUser newId email hash name (defaultRole rt) None)
                        now).
Proof.
  intros Hfresh.
  unfold post_register, try_catch, bind, User_findOne_email, read,
    register_new, User_insert, User_update, write, send, ret, response_of,
    store_of.
  destruct (validateUserCredentials email password) eqn:V; simpl;
    [intros [= <-]; discriminate |].
  destruct (find _ (users st)) eqn:F; simpl; [intros [= <-]; discriminate |].
  destruct (bcrypt_hash rt password 10) as [hash|] eqn:Hh; simpl;
    [|intros [= <-]; discriminate].
  intros [= <-] _. split; [|split].
  - apply (proj1 (first_violation_none (credential_rules email password))).
    now rewrite <- validateUserCredentials_rules.
  - now apply find_email_none.
  - eexists. eexists. split; [reflexivity |]. split; [reflexivity |].
    split; [|reflexivity].
    rewrite update_first_fresh_last; [reflexivity | | apply N.eqb_refl].
    intros y Hy. apply N.eqb_neq. now apply Hfresh.
Qed.

Lemma post_register_created_witness :
  ~ In (js "carol@example.com") (map u_email (users Demo.store)).
Proof.
  apply (post_register_created (Demo.runtime 0) 3 (js "carol@example.com")
           (js "Passw0rd!") None 7%Z Demo.store
           (mkResponse 201
              (MessageTokens "Registration successful"
                 (generateAccessToken (Demo.runtime 0)
                    (mkUser 3 (js "carol@example.com")
                            (js "$2b$Passw0rd!") None (Some (js "user")) None)
                    7%Z)
                 (generateRefreshToken (Demo.runtime 0)
                    (mkUser 3 (js "carol@example.com")
                            (js "$2b$Passw0rd!") None (Some (js "user")) None)
                    7%Z)))).
  - intros u [<- | [<- | []]]; simpl; discriminate.
  - reflexivity.
  - reflexivity.
Defined.

Example emailRegex_examples :
  test emailRegex (js "a@b.c") = true
  /\ test emailRegex (js "a@b") = false
  /\ test emailRegex (js "a b@c.d") = false
  /\ test emailRegex (js "a@@b.c") = false
  /\ test emailRegex (js "a@b.c.") = true
  /\ test emailRegex (js "a@.b") = false.
Proof. repeat split; reflexivity. Qed.

(** ** Days across a transition, and calendars with an empty name *)

(** In New York, the day asked for as 2023-11-06 is searched as the local
    5th of November, on which the clocks go back: the window is 25 hours
    long, and two events of the requester 24 hours apart are both
    sent. *)
Example get_events_day_long_day :
  let rt := Demo.runtime_in Demo.new_york in
  let start := 1699156800000%Z in
  let at_ (i : ObjectId) (t : Date) :=
    mkEvent i (js "Call") None t t None 1 [] in
  let st := mkStore [Demo.alice] []
                    [at_ 100 start; at_ 101 (start + 86400000)%Z] [] in
  setHours rt 1699228800000%Z 0 0 0 0 = start
  /\ setHours rt start 23 59 59 999 = (start + 90000000 - 1)%Z
  /\ page_events (get_events_day rt (Demo.claims_of Demo.alice)
                                 (js "2023-11-06") st)
     = [at_ 100 start; at_ 101 (start + 86400000)%Z].
Proof. repeat split; reflexivity. Qed.

(** A calendar renamed to a blank name (the update runs no validator,
    and here it trims) can no longer be saved: taking an event off it is
    answered 500 and the reference stays, and an event created under it
    is stored without being listed. *)
Example blank_name_then_save :
  let alice := Demo.claims_of Demo.alice in
  let st := store_of (put_calendar trim alice 10 (js "  ") Demo.store) in
  option_map c_name (find (fun c => c_id c =? 10) (calendars st)) = Some []
  /\ delete_calendar_event alice 10 100 st
     = (Ok (mkResponse 500 (MessageError "Server error during event removal"
                                         ValidationError)),
        st, [mkQuery "Calendar" "findById"; mkQuery "Calendar" "save"])
  /\ response_of (post_calendar_events alice 10 Demo.review 101 st)
     = Ok (mkResponse 500 (MessageError "Server error during event creation"
                                        ValidationError))
  /\ option_map e_title
       (find (fun e => e_id e =? 101)
             (events (store_of (post_calendar_events alice 10 Demo.review 101
                                                     st))))
     = Some (js "Review")
  /\ option_map c_events
       (find (fun c => c_id c =? 10)
             (calendars (store_of (post_calendar_events alice 10 Demo.review
                                                        101 st))))
     = Some [100].
Proof. repeat split; reflexivity. Qed.
